(** * qualysapi.api_objects: the import buffer and its consumers

    A shallow embedding of the buffering classes of [qualysapi/api_objects.py]
    ([BufferQueue], [BufferStats], [BufferConsumer], [ImportBuffer] and
    [MapReportRunner]) and the properties of their methods.

    Python objects are records, method calls pass the object explicitly and
    return the updated object.  A method that can raise returns a [result].
    A [while] loop takes fuel and returns [None] when the fuel runs out;
    every termination statement below exhibits the fuel that suffices.  The
    [for] loop over the running list is bounded by the length of the list it
    starts on, and is shown not to depend on any fuel beyond that. *)

From stdpp Require Import base list numbers strings.
From Stdlib Require Import QArith.

Local Open Scope Z_scope.

(** ** Python values, exceptions and results *)

Module Py.

(** The exceptions the modelled methods can raise. *)
Inductive exn : Type :=
| ParsingBufferException   (* qualysapi.exceptions.ParsingBufferException *)
| QueueEmpty               (* queue.Empty *)
| AttributeError
| TypeError
| NameError.

Inductive result (A : Type) : Type :=
| Ok (a : A)
| Raise (e : exn).
Arguments Ok {A} a.
Arguments Raise {A} e.

Definition bind {A B} (r : result A) (k : A -> result B) : result B :=
  match r with
  | Ok a => k a
  | Raise e => Raise e
  end.

Definition raises {A} (r : result A) : bool :=
  match r with
  | Ok _ => false
  | Raise _ => true
  end.

(** The classes whose constructors call [super], with their direct base. *)
Inductive class : Type :=
| Process                  (* multiprocessing.Process *)
| BufferConsumerClass
| MapReportRunnerClass.

Definition base (c : class) : option class :=
  match c with
  | Process => None
  | BufferConsumerClass => Some Process
  | MapReportRunnerClass => Some Process
  end.

Definition class_eqb (c d : class) : bool :=
  match c, d with
  | Process, Process => true
  | BufferConsumerClass, BufferConsumerClass => true
  | MapReportRunnerClass, MapReportRunnerClass => true
  | _, _ => false
  end.

(** [issubclass(c, d)]; the hierarchy is two levels deep. *)
Definition issubclass (c d : class) : bool :=
  class_eqb c d ||
  match base c with
  | Some b => class_eqb b d
  | None => false
  end.

(** [super(typ, self).__init__()] for [self] an instance of [self_class]:
    Python builds the [super] object only when [self] is an instance of
    [typ], and raises [TypeError] otherwise.  [Process.__init__] without
    arguments does not raise. *)
Definition super_init (typ self_class : class) : result unit :=
  if issubclass self_class typ then Ok tt else Raise TypeError.

(** What a method without a [return] statement evaluates to, and a float. *)
Inductive value : Type :=
| PyNone
| PyFloat (q : Q).

End Py.

Import Py.

#[export] Instance result_bind : MBind result := fun A B k r => Py.bind r k.
#[export] Instance result_ret : MRet result := fun A a => Ok a.

(** ** class BufferQueue *)

Module BufferQueue.
Section WithItem.
Context {Item : Type}.

(** The class derives from [multiprocessing.queues.Queue], whose [put] and
    [get] the buffer and its consumers use.  The queue is a FIFO sequence,
    oldest item first. *)
Definition t : Type := list Item.

Definition put (self : t) (item : Item) : t := self ++ [item].

(** [self.get(timeout=t)] once the timeout has elapsed with no producer
    putting anything: the head when there is one, [queue.Empty] otherwise. *)
Definition get (self : t) (timeout : Q) : result (Item * t) :=
  match self with
  | [] => Raise QueueEmpty
  | x :: rest => Ok (x, rest)
  end.

(** [len(self)]: neither [multiprocessing.queues.Queue] nor [BufferQueue]
    defines [__len__], so [len] raises. *)
Definition len (self : t) : result Z := Raise TypeError.

(** [self.popleft()]: neither class has such an attribute. *)
Definition popleft (self : t) : result (Item * t) := Raise AttributeError.

(** [[self.popleft() for i in range(n)]] *)
Fixpoint popleft_range (n : nat) (self : t) : result (list Item * t) :=
  match n with
  | O => Ok ([], self)
  | S n' =>
      '(x, self1) ← popleft self;
      '(xs, self2) ← popleft_range n' self1;
      Ok (x :: xs, self2)
  end.

(** [lim = len(self) if len(self) < lim else lim], the test evaluated
    first; [range] of a negative number is empty, which [Z.to_nat] gives. *)
Definition consume (self : t) (lim : Z) : result (list Item * t) :=
  n ← len self;
  lim ← (if n <? lim then len self else Ok lim);
  popleft_range (Z.to_nat lim) self.

End WithItem.
End BufferQueue.

(** ** class BufferStats *)

Module BufferStats.

Record t : Type := Build {
  processed : Z;
  updates : Z;
  adds : Z;
  deletes : Z;
  start_time : option Q;
  end_time : option Q
}.

(** The class attributes, which every fresh instance reads. *)
Definition class_attrs : t :=
  {| processed := 0; updates := 0; adds := 0; deletes := 0;
     start_time := None; end_time := None |}.

(** The body of [calculate_processing_average] is the docstring and [pass]. *)
Definition calculate_processing_average (self : t) : result value :=
  Ok PyNone.

Definition increment_updates (self : t) : t :=
  {| processed := processed self; updates := updates self + 1;
     adds := adds self; deletes := deletes self;
     start_time := start_time self; end_time := end_time self |}.

Definition increment_insertions (self : t) : t :=
  {| processed := processed self; updates := updates self;
     adds := adds self + 1; deletes := deletes self;
     start_time := start_time self; end_time := end_time self |}.

Definition decrement (self : t) : t :=
  {| processed := processed self; updates := updates self;
     adds := adds self; deletes := deletes self + 1;
     start_time := start_time self; end_time := end_time self |}.

End BufferStats.

(** ** class BufferConsumer *)

Module BufferConsumer.
Section WithItem.
Context {Item : Type}.

(** The keyword arguments [__init__] reads; [None] is an absent key. *)
Record kwargs : Type := Kwargs {
  kw_bite_size : option Z;
  kw_queue : option (@BufferQueue.t Item);
  kw_results_list : option (list Item)
}.

(** A constructed consumer.  [queue] and [results_list] hold the current
    contents of the objects the consumer refers to. *)
Record t : Type := Build {
  bite_size : Z;
  queue : @BufferQueue.t Item;
  results_list : option (list Item)
}.

Definition __init__ (kw : kwargs) : result t :=
  _ ← super_init BufferConsumerClass BufferConsumerClass;
  match kw_queue kw with
  | None => Raise ParsingBufferException
  | Some q =>
      Ok {| bite_size := default 1000 (kw_bite_size kw);
            queue := q;
            results_list := kw_results_list kw |}
  end.

(** The timeout [run] passes to [queue.get]. *)
Definition get_timeout : Q := (1 # 2)%Q.

(** One call of [queue.get]: the timeout passed and what came back
    ([None] for [queue.Empty]). *)
Definition get_event : Type := Q * option Item.

Definition set_queue (q : @BufferQueue.t Item) (self : t) : t :=
  {| bite_size := bite_size self; queue := q;
     results_list := results_list self |}.

(** [self.results_list.append(item)] under [if self.results_list is not None] *)
Definition append_result (item : Item) (self : t) : t :=
  match results_list self with
  | Some r =>
      {| bite_size := bite_size self; queue := queue self;
         results_list := Some (r ++ [item]) |}
  | None => self
  end.

(** One pass through the body of [while not done]: the consumer after it,
    the new value of [done], and the [get] that was made. *)
Definition run_body (self : t) : result (t * bool * get_event) :=
  match BufferQueue.get (queue self) get_timeout with
  | Ok (item, q) =>
      Ok (append_result item (set_queue q self), false,
          (get_timeout, Some item))
  | Raise QueueEmpty => Ok (self, true, (get_timeout, None))
  | Raise e => Raise e
  end.

(** [while not done: ...], with the log of the [get] calls made so far. *)
Fixpoint run_loop (fuel : nat) (self : t) (log : list get_event)
  : option (result (t * list get_event)) :=
  match fuel with
  | O => None
  | S fuel' =>
      match run_body self with
      | Raise e => Some (Raise e)
      | Ok (self', done, ev) =>
          if done then Some (Ok (self', log ++ [ev]))
          else run_loop fuel' self' (log ++ [ev])
      end
  end.

Definition run (fuel : nat) (self : t)
  : option (result (t * list get_event)) :=
  run_loop fuel self [].

End WithItem.
End BufferConsumer.

(** ** class ImportBuffer *)

Module ImportBuffer.
Section WithItem.
Context {Item : Type}.

(** A Python callable handed in by the caller, named by a number. *)
Definition Callback : Type := nat.

(** What the buffer does to the world outside its own fields. *)
Inductive event : Type :=
| Started (pid : nat)                       (* new_consumer.start() *)
| Joined (pid : nat)                        (* csmr.join() *)
| Called (f : Callback) (args : list Item). (* f(args) *)

(** The keyword arguments a caller may pass to [__init__].  The [consumer]
    class is left at its default, [BufferConsumer]. *)
Record kwargs : Type := Kwargs {
  kw_completion_callback : option Callback;
  kw_consumer_callback : option Callback;
  kw_trigger_limit : option Z;
  kw_bite_size : option Z;
  kw_max_consumers : option Z
}.

(** The buffer object.  [queue] and [running] are attributes of the class,
    which every instance reads and changes in place; [running] lists the
    consumer processes by identity (their index in the process table).  The
    limits and [results_list] are the instance's own.  The last three fields
    are not attributes of the object: [procs] is the process table, giving
    for every process ever started whether it is still alive; [trace] is
    the record of the events so far; [inherited] is the number of processes
    that existed when [__init__] gave this instance its result list.  Those
    processes were built by earlier instances and hold the lists of those
    instances; the later ones were built by this instance, with its list. *)
Record t : Type := Make {
  queue : @BufferQueue.t Item;
  trigger_limit : Z;
  bite_size : Z;
  max_consumers : Z;
  results_list : option (list Item);
  running : list nat;
  procs : list bool;
  trace : list event;
  inherited : nat
}.

(** The class attributes, as they are when the module has been loaded. *)
Definition class_attrs : t :=
  {| queue := []; trigger_limit := 5000; bite_size := 1000;
     max_consumers := 5; results_list := None; running := [];
     procs := []; trace := []; inherited := 0 |}.

(** [__init__] writes the three limits when they are given and a fresh
    managed list; it reads no other keyword argument.  No process that
    exists at this point holds the fresh list. *)
Definition __init__ (self : t) (kw : kwargs) : t :=
  {| queue := queue self;
     trigger_limit := default (trigger_limit self) (kw_trigger_limit kw);
     bite_size := default (bite_size self) (kw_bite_size kw);
     max_consumers := default (max_consumers self) (kw_max_consumers kw);
     results_list := Some [];
     running := running self;
     procs := procs self;
     trace := trace self;
     inherited := length (procs self) |}.

(** [csmr.is_alive()] *)
Definition is_alive (procs : list bool) (pid : nat) : bool :=
  match procs !! pid with
  | Some b => b
  | None => false
  end.

(** [list.remove(x)]: the first element equal to [x] goes. *)
Fixpoint list_remove (x : nat) (l : list nat) : list nat :=
  match l with
  | [] => []
  | y :: l' => if decide (x = y) then l' else y :: list_remove x l'
  end.

(** [for csmr in self.running: if not csmr.is_alive():
    self.running.remove(csmr)].  The list iterator holds an index [i] into
    the list as it is now, and stops when [i] is past its end. *)
Fixpoint reap_loop (fuel : nat) (procs : list bool) (i : nat)
  (running : list nat) : list nat :=
  match fuel with
  | O => running
  | S fuel' =>
      match running !! i with
      | None => running
      | Some csmr =>
          if is_alive procs csmr
          then reap_loop fuel' procs (S i) running
          else reap_loop fuel' procs (S i) (list_remove csmr running)
      end
  end.

(** The iterator yields at most one element per position of the list it
    started on. *)
Definition reap (procs : list bool) (running : list nat) : list nat :=
  reap_loop (length running) procs 0 running.

Definition put_item (item : Item) (self : t) : t :=
  {| queue := BufferQueue.put (queue self) item;
     trigger_limit := trigger_limit self; bite_size := bite_size self;
     max_consumers := max_consumers self;
     results_list := results_list self; running := running self;
     procs := procs self; trace := trace self;
     inherited := inherited self |}.

(** [new_consumer.start(); self.running.append(new_consumer)] *)
Definition start_consumer (self : t) : t :=
  let pid := length (procs self) in
  {| queue := queue self;
     trigger_limit := trigger_limit self; bite_size := bite_size self;
     max_consumers := max_consumers self;
     results_list := results_list self;
     running := running self ++ [pid];
     procs := procs self ++ [true];
     trace := trace self ++ [Started pid];
     inherited := inherited self |}.

Definition set_running (r : list nat) (self : t) : t :=
  {| queue := queue self;
     trigger_limit := trigger_limit self; bite_size := bite_size self;
     max_consumers := max_consumers self;
     results_list := results_list self; running := r;
     procs := procs self; trace := trace self;
     inherited := inherited self |}.

Definition add (self : t) (item : Item) : result t :=
  let self := put_item item self in
  self ←
    (if bool_decide (length (running self) = 0%nat) then
       _ ← BufferConsumer.__init__
             {| BufferConsumer.kw_bite_size := None;
                BufferConsumer.kw_queue := Some (queue self);
                BufferConsumer.kw_results_list := results_list self |};
       Ok (start_consumer self)
     else Ok self);
  Ok (set_running (reap (procs self) (running self)) self).

(** Whether the consumer [pid] was built by this instance: it then holds
    this instance's result list. *)
Definition owns (self : t) (pid : nat) : bool :=
  bool_decide (inherited self <= pid)%nat.

(** The result list the consumer [pid] holds, bound when it was built.  The
    list of an earlier instance is not this instance's, and this record
    keeps no account of it: [Some []] stands for it, and what the consumer
    appends to it is not read back. *)
Definition consumer_list (self : t) (pid : nat) : option (list Item) :=
  if owns self pid then results_list self else Some [].

(** The consumer process [pid] runs [BufferConsumer.run] on the shared
    queue and on the result list it holds until its [get] times out, and
    exits.  Nothing else touches the queue meanwhile. *)
Definition consumer_exits (fuel : nat) (self : t) (pid : nat)
  : option (result t) :=
  if is_alive (procs self) pid then
    match BufferConsumer.run fuel
            {| BufferConsumer.bite_size := 1000;
               BufferConsumer.queue := queue self;
               BufferConsumer.results_list := consumer_list self pid |} with
    | None => None
    | Some (Raise e) => Some (Raise e)
    | Some (Ok (c, _)) =>
        Some (Ok {| queue := BufferConsumer.queue c;
                    trigger_limit := trigger_limit self;
                    bite_size := bite_size self;
                    max_consumers := max_consumers self;
                    results_list :=
                      if owns self pid then BufferConsumer.results_list c
                      else results_list self;
                    running := running self;
                    procs := <[pid := false]> (procs self);
                    trace := trace self;
                    inherited := inherited self |})
    end
  else Some (Ok self).

Definition log_event (e : event) (self : t) : t :=
  {| queue := queue self;
     trigger_limit := trigger_limit self; bite_size := bite_size self;
     max_consumers := max_consumers self;
     results_list := results_list self; running := running self;
     procs := procs self; trace := trace self ++ [e];
     inherited := inherited self |}.

(** [csmr.join()]: returns once the process has exited. *)
Definition join (fuel : nat) (self : t) (pid : nat) : option (result t) :=
  match consumer_exits fuel self pid with
  | Some (Ok self') => Some (Ok (log_event (Joined pid) self'))
  | r => r
  end.

(** [for csmr in self.running: csmr.join()]; nothing in the loop changes
    the list. *)
Fixpoint join_all (fuel : nat) (self : t) (pids : list nat)
  : option (result t) :=
  match pids with
  | [] => Some (Ok self)
  | pid :: pids' =>
      match join fuel self pid with
      | Some (Ok self') => join_all fuel self' pids'
      | r => r
      end
  end.

(** [finish] returns [list(self.results_list)]; [list(None)] is a
    [TypeError]. *)
Definition finish (fuel : nat) (self : t)
  : option (result (t * list Item)) :=
  match join_all fuel self (running self) with
  | None => None
  | Some (Raise e) => Some (Raise e)
  | Some (Ok self') =>
      match results_list self' with
      | Some r => Some (Ok (self', r))
      | None => Some (Raise TypeError)
      end
  end.

End WithItem.

(** A buffer that inherited no process: the first instance of the class. *)
Abbreviation Build q tl bs mc res run procs tr :=
  (Make q tl bs mc res run procs tr 0).

End ImportBuffer.

(** ** class Map, as far as the report runner reads it *)

Module Map.

Record t : Type := Build {
  ref : option Z;
  report_id : option Z
}.

Definition hasReport (self : t) : bool :=
  match report_id self with
  | Some _ => true
  | None => false
  end.

End Map.

(** ** class MapReportRunner *)

Module MapReportRunner.
Section WithCache.

(** The cache is [qcache.APICacheInstance], which is not part of this
    module: [load_api_object] takes the cache and the map instance and
    gives both back as the call leaves them. *)
Context {Cache : Type}.
Variable load_api_object : Cache -> Map.t -> Cache * Map.t.

Record kwargs : Type := Kwargs {
  kw_queue : option (@BufferQueue.t Map.t);
  kw_redis_cache : option Cache
}.

Record t : Type := Build {
  queue : @BufferQueue.t Map.t;
  redis_cache : Cache
}.

(** The two tests of [__init__] that follow its [super] call.  The name
    [ReportRunnerException] is bound nowhere in the module, so the [raise]
    statements raise [NameError]. *)
Definition check_kwargs (kw : kwargs) : result t :=
  match kw_queue kw with
  | None => Raise NameError
  | Some q =>
      match kw_redis_cache kw with
      | None => Raise NameError
      | Some c => Ok {| queue := q; redis_cache := c |}
      end
  end.

(** [__init__] opens with [super(BufferConsumer, self).__init__()], on a
    [self] that is a [MapReportRunner]. *)
Definition __init__ (kw : kwargs) : result t :=
  _ ← super_init BufferConsumerClass MapReportRunnerClass;
  check_kwargs kw.

(** The timeout [run] passes to [queue.get]. *)
Definition get_timeout : Q := 1%Q.

(** [while map_instance.report_id is None: ...]: reload the map from the
    cache; the branch taken when the identifier is still absent is [pass]. *)
Fixpoint report_loop (fuel : nat) (cache : Cache) (map_instance : Map.t)
  : option (Cache * Map.t) :=
  match fuel with
  | O => None
  | S fuel' =>
      match Map.report_id map_instance with
      | Some _ => Some (cache, map_instance)
      | None =>
          let '(cache', map_instance') := load_api_object cache map_instance in
          report_loop fuel' cache' map_instance'
      end
  end.

(** [while not done: ...]; each pass of either loop takes one unit of fuel. *)
Fixpoint run (fuel : nat) (self : t) : option (result t) :=
  match fuel with
  | O => None
  | S fuel' =>
      match BufferQueue.get (queue self) get_timeout with
      | Ok (map_instance, q) =>
          match report_loop fuel' (redis_cache self) map_instance with
          | None => None
          | Some (cache', _) =>
              run fuel' {| queue := q; redis_cache := cache' |}
          end
      | Raise QueueEmpty => Some (Ok self)
      | Raise e => Some (Raise e)
      end
  end.

End WithCache.
End MapReportRunner.

(** ** Runs of the classes above, used to state their properties *)

(** The [get] calls of a consumer that finds the items [q] and then an
    empty queue. *)
Definition gets_of {Item : Type} (q : list Item)
  : list (@BufferConsumer.get_event Item) :=
  map (fun x => (BufferConsumer.get_timeout, Some x)) q
  ++ [(BufferConsumer.get_timeout, None)].

(** The result list after the items [q] went through the loop. *)
Definition collected {Item : Type} (res : option (list Item))
  (q : list Item)
  : option (list Item) :=
  match res with
  | Some r => Some (r ++ q)
  | None => None
  end.

(** A producer that calls [add] for each item in turn, nothing else
    happening in between. *)
Fixpoint add_all {Item : Type} (self : @ImportBuffer.t Item)
  (items : list Item) : result (@ImportBuffer.t Item) :=
  match items with
  | [] => Ok self
  | x :: items' => self' ← ImportBuffer.add self x; add_all self' items'
  end.

(** The callbacks invoked in a trace, with their arguments. *)
Fixpoint calls {Item : Type} (tr : list (@ImportBuffer.event Item))
  : list (ImportBuffer.Callback * list Item) :=
  match tr with
  | [] => []
  | ImportBuffer.Called f args :: tr' => (f, args) :: calls tr'
  | _ :: tr' => calls tr'
  end.

(** ** The record classes: exceptions and text *)

Module Exc.

(** The exceptions of the record classes ([Report], [Map], [Scan], ...). *)
Inductive error : Type :=
| ValueError
| IndexError
| AttributeError
| NameError
| QualysException.        (* qualysapi.exceptions.QualysException *)

Inductive outcome (A : Type) : Type :=
| Return (a : A)
| Throw (e : error).
Arguments Return {A} a.
Arguments Throw {A} e.

Definition bind {A B} (r : outcome A) (k : A -> outcome B) : outcome B :=
  match r with
  | Return a => k a
  | Throw e => Throw e
  end.

End Exc.

#[export] Instance outcome_bind : MBind Exc.outcome :=
  fun A B k r => Exc.bind r k.

Module Text.

(** A Python [str], character by character. *)
Abbreviation str := (list Ascii.ascii).

Definition lit (s : string) : str := String.list_ascii_of_string s.

(** The one character of a one-character literal. *)
Definition chr (s : string) : Ascii.ascii :=
  match s with
  | String c _ => c
  | EmptyString => Ascii.zero
  end.

(** [s.replace(c, new)] for a one-character [c]: every occurrence goes. *)
Definition replace (c : Ascii.ascii) (new : str) (s : str) : str :=
  flat_map (fun x => if decide (x = c) then new else [x]) s.

(** [s.split(sep)] for a one-character [sep]: one field more than there are
    separators, empty fields kept. *)
Fixpoint split (sep : Ascii.ascii) (s : str) : list str :=
  match s with
  | [] => [[]]
  | c :: s' =>
      if decide (c = sep) then [] :: split sep s'
      else match split sep s' with
           | w :: ws => (c :: w) :: ws
           | [] => [[c]]
           end
  end.



(** None of the characters [cs] occurs in [s]. *)
Definition free (cs : list Ascii.ascii) (s : str) : Prop :=
  Forall (fun c => c ∉ cs) s.

(** [l[i]] *)
Definition index {A} (l : list A) (i : nat) : Exc.outcome A :=
  match l !! i with
  | Some x => Exc.Return x
  | None => Exc.Throw Exc.IndexError
  end.

End Text.

Import Text.

(** ** Timestamps, as [Host], [Scan], [ReportTemplate] and [Report] read them *)

Module Timestamp.

(** [str(x).replace('T', ' ').replace('Z', '').split(' ')], on the text
    [str(x)]. *)
Definition fields (text : str) : list str :=
  split (chr " ") (replace (chr "Z") [] (replace (chr "T") [chr " "] text)).

Section WithBuiltins.
Context {DateTime : Type}.

(** The builtins [int] on a string and [datetime.datetime] on six numbers,
    either of which may raise. *)
Variable int : str -> Exc.outcome Z.
Variable datetime : Z -> Z -> Z -> Z -> Z -> Z -> Exc.outcome DateTime.

(** The four lines [Host.__init__] and [Scan.__init__] share: split the
    text into date and time, those at [-] and [:], and build the
    [datetime] from the first three numbers of each.  The arguments of
    [datetime.datetime] are evaluated from left to right. *)
Definition parse (text : str) : Exc.outcome DateTime :=
  let stamp := fields text in
  d ← index stamp 0;
  let date := split (chr "-") d in
  t ← index stamp 1;
  let time := split (chr ":") t in
  y ← index date 0 ≫= int;
  mo ← index date 1 ≫= int;
  dd ← index date 2 ≫= int;
  hh ← index time 0 ≫= int;
  mi ← index time 1 ≫= int;
  ss ← index time 2 ≫= int;
  datetime y mo dd hh mi ss.

End WithBuiltins.
End Timestamp.

(** ** class Report *)

Module Report.
Section WithValue.

(** The values a caller passes in, whatever they are. *)
Context {V : Type}.

(** The keyword arguments [__init__] pops; [None] is an absent key or a
    key given as [None]. *)
Record kwargs : Type := Kwargs {
  kw_expiration_datetime : option V;
  kw_id : option V;
  kw_launch_datetime : option V;
  kw_output_format : option V;
  kw_size : option V;
  kw_status : option V;
  kw_type : option V;
  kw_user_login : option V;
  kw_elem : option V;
  kw_json : option V
}.

Record t : Type := Build {
  expiration_datetime : list str;
  id : option V;
  launch_datetime : list str;
  output_format : option V;
  size : option V;
  status : option V;
  type : option V;
  user_login : option V
}.

(** The keys of [arg_order], in order. *)
Definition ordered (kw : kwargs) : list (option V) :=
  [kw_expiration_datetime kw; kw_id kw; kw_launch_datetime kw;
   kw_output_format kw; kw_size kw; kw_status kw; kw_type kw;
   kw_user_login kw].

(** [__init__].  With positional arguments the list comprehension opens by
    evaluating [enumerate(n, arg_order)], where [n] is not bound.  A key of
    [arg_order] that is not [None] reaches [self.setattr(key, value)], and
    no class here defines [setattr].  An [elem] reaches [status.STATE],
    where [status] is not bound.  Past these the attributes are the class
    attributes, all [None]; the two dates become the fields of [str(None)]
    and [id], not being a [str], stays. *)
Definition __init__ (args : list V) (kw : kwargs) : Exc.outcome t :=
  _ ← (if bool_decide (args = []) then Exc.Return tt
       else Exc.Throw Exc.NameError);
  _ ← (if forallb (fun v => bool_decide (v = None :> option V)) (ordered kw)
       then Exc.Return tt else Exc.Throw Exc.AttributeError);
  _ ← (match kw_elem kw with
       | None => Exc.Return tt
       | Some _ => Exc.Throw Exc.NameError
       end);
  Exc.Return
    {| expiration_datetime := Timestamp.fields (lit "None");
       id := None;
       launch_datetime := Timestamp.fields (lit "None");
       output_format := None; size := None; status := None; type := None;
       user_login := None |}.

(** What [download] sends: the call and the [id] in its parameters. *)
Record request : Type := Request {
  call : str;
  action : str;
  req_id : option V
}.

(** [self.status == 'Finished'] on a value, and the answer of
    [conn.request]. *)
Variable is_finished : V -> bool.
Context {Resp : Type}.
Variable respond : list request -> Resp.

(** [download]: the requests sent so far and after, and what is returned
    ([None] when nothing is). *)
Definition download (log : list request) (self : t)
  : list request * option Resp :=
  match status self with
  | Some v =>
      if is_finished v then
        let log' := log ++ [Request (lit "/api/2.0/fo/report")
                              (lit "fetch") (id self)] in
        (log', Some (respond log'))
      else (log, None)
  | None => (log, None)
  end.

End WithValue.
End Report.

(** ** class OptionProfile *)

Module OptionProfile.

(** An lxml element as [__init__] uses it: its text, its attributes (which
    are strings) and its truth value. *)
Record element : Type := Element {
  text : option str;
  attrib : str -> option str;
  truth : bool
}.

(** What [el.get(key, 1)] gives: the attribute, or the default. *)
Inductive got : Type :=
| GotStr (s : str)
| GotInt (n : Z).

Definition get (el : element) (key : str) (default : Z) : got :=
  match attrib el key with
  | Some s => GotStr s
  | None => GotInt default
  end.

(** [v == n] for an integer [n]: a string equals no integer. *)
Definition eq_int (v : got) (n : Z) : bool :=
  match v with
  | GotStr _ => false
  | GotInt m => bool_decide (m = n)
  end.

Record t : Type := Build {
  title : option str;
  is_default : bool
}.

Definition class_attrs : t := {| title := None; is_default := false |}.

(** [args] are the positional arguments, each an element or [None]; [elem]
    is the keyword of that name. *)
Definition __init__ (args : list (option element)) (elem : option element)
  : t :=
  let el :=
    match args with
    | a :: _ => a
    | [] =>
        match elem with
        | Some e => if truth e then Some e else None
        | None => None
        end
    end in
  match el with
  | Some e =>
      {| title := text e;
         is_default :=
           eq_int (get e (lit "option_profile_default") 1) 0 |}
  | None => class_attrs
  end.

End OptionProfile.

(** ** Map.setReport *)

Module MapReport.

(** The keyword arguments of [setReport]: a report identifier, and a
    report object, of which the [id] is read. *)
Record kwargs : Type := Kwargs {
  kw_report_id : option Z;
  kw_report : option (@Report.t Z)
}.

Definition setReport (self : Map.t) (kw : kwargs) : Exc.outcome Map.t :=
  match kw_report_id kw, kw_report kw with
  | None, None => Exc.Throw Exc.QualysException
  | rid, None =>
      Exc.Return {| Map.ref := Map.ref self; Map.report_id := rid |}
  | _, Some report =>
      Exc.Return {| Map.ref := Map.ref self;
                    Map.report_id := Report.id report |}
  end.

End MapReport.

(** The cache after the maps that came without a report identifier were
    loaded from it, in order. *)
Definition looked_up {Cache : Type}
  (load : Cache -> Map.t -> Cache * Map.t) (cache : Cache)
  (maps : list Map.t) : Cache :=
  foldl (fun c m => if Map.hasReport m then c else (load c m).1) cache maps.

(** ** class Scan: cancel, pause, resume *)

Module Scan.

(** A value in the parameters of a request. *)
Inductive param : Type :=
| PStr (s : str)
| PInt (n : Z).

(** [conn.request(call, parameters)] *)
Record request : Type := Request {
  call : str;
  parameters : list (str * param)
}.

(** The two attributes the three methods read, both strings as [__init__]
    leaves them. *)
Record t : Type := Build {
  ref : str;
  status : str
}.






Section WithService.
Context {Resp State : Type}.

(** The answer of the service to the last request sent, given all the
    requests so far, and the [RESPONSE.SCAN_LIST.SCAN.STATUS.STATE] of an
    answer, which raises when the answer has no such element. *)
Variable respond : list request -> Resp.
Variable state_of : Resp -> Exc.outcome State.





End WithService.
End Scan.

(** ** Runs of the import buffer *)

Module BufferRuns.
Section WithItem.
Context {Item : Type}.

(** The live consumer [pid] makes one pass through the body of its loop on
    the shared queue and on the result list it holds; when its [get] times
    out it exits. *)
Definition consumer_step (self : @ImportBuffer.t Item) (pid : nat)
  : result (@ImportBuffer.t Item) :=
  if ImportBuffer.is_alive (ImportBuffer.procs self) pid then
    '(c, done, _) ← BufferConsumer.run_body
                      {| BufferConsumer.bite_size := 1000;
                         BufferConsumer.queue := ImportBuffer.queue self;
                         BufferConsumer.results_list :=
                           ImportBuffer.consumer_list self pid |};
    Ok {| ImportBuffer.queue := BufferConsumer.queue c;
          ImportBuffer.trigger_limit := ImportBuffer.trigger_limit self;
          ImportBuffer.bite_size := ImportBuffer.bite_size self;
          ImportBuffer.max_consumers := ImportBuffer.max_consumers self;
          ImportBuffer.results_list :=
            if ImportBuffer.owns self pid
            then BufferConsumer.results_list c
            else ImportBuffer.results_list self;
          ImportBuffer.running := ImportBuffer.running self;
          ImportBuffer.procs :=
            if done : bool then <[pid := false]> (ImportBuffer.procs self)
            else ImportBuffer.procs self;
          ImportBuffer.trace := ImportBuffer.trace self;
          ImportBuffer.inherited := ImportBuffer.inherited self |}
  else Ok self.

(** What can happen to a buffer: the producer adds an item or finishes, a
    consumer makes one pass or runs until it exits. *)
Inductive op : Type :=
| OpAdd (item : Item)
| OpStep (pid : nat)
| OpExit (pid : nat)
| OpFinish.

Definition exec_op (fuel : nat) (self : @ImportBuffer.t Item) (o : op)
  : option (result (@ImportBuffer.t Item)) :=
  match o with
  | OpAdd item => Some (ImportBuffer.add self item)
  | OpStep pid => Some (consumer_step self pid)
  | OpExit pid => ImportBuffer.consumer_exits fuel self pid
  | OpFinish =>
      match ImportBuffer.finish fuel self with
      | None => None
      | Some (Raise e) => Some (Raise e)
      | Some (Ok (self', _)) => Some (Ok self')
      end
  end.

Fixpoint exec (fuel : nat) (self : @ImportBuffer.t Item) (ops : list op)
  : option (result (@ImportBuffer.t Item)) :=
  match ops with
  | [] => Some (Ok self)
  | o :: ops' =>
      match exec_op fuel self o with
      | Some (Ok self') => exec fuel self' ops'
      | r => r
      end
  end.

(** The items a run adds, in order. *)
Fixpoint added (ops : list op) : list Item :=
  match ops with
  | [] => []
  | OpAdd item :: ops' => item :: added ops'
  | _ :: ops' => added ops'
  end.

(** What every run keeps true of a buffer that no consumer of an earlier
    buffer works for, [items] being the backlog it found followed by the
    items added so far: the results followed by the queue are those items,
    and every live consumer was built by this buffer. *)
Definition conserved (items : list Item) (self : @ImportBuffer.t Item)
  : Prop :=
  (exists r,
     ImportBuffer.results_list self = Some r /\
     r ++ ImportBuffer.queue self = items) /\
  (forall pid,
     ImportBuffer.is_alive (ImportBuffer.procs self) pid = true ->
     (ImportBuffer.inherited self <= pid)%nat) /\
  (ImportBuffer.inherited self <= length (ImportBuffer.procs self))%nat.

(** At most one consumer is listed as running, and every live consumer is
    listed. *)
Definition single_consumer (self : @ImportBuffer.t Item) : Prop :=
  (length (ImportBuffer.running self) <= 1)%nat /\
  forall pid,
    ImportBuffer.is_alive (ImportBuffer.procs self) pid = true ->
    pid ∈ ImportBuffer.running self.

(** A buffer with other limits. *)
Definition with_limits (tl bs mc : Z) (self : @ImportBuffer.t Item)
  : @ImportBuffer.t Item :=
  {| ImportBuffer.queue := ImportBuffer.queue self;
     ImportBuffer.trigger_limit := tl;
     ImportBuffer.bite_size := bs;
     ImportBuffer.max_consumers := mc;
     ImportBuffer.results_list := ImportBuffer.results_list self;
     ImportBuffer.running := ImportBuffer.running self;
     ImportBuffer.procs := ImportBuffer.procs self;
     ImportBuffer.trace := ImportBuffer.trace self;
     ImportBuffer.inherited := ImportBuffer.inherited self |}.

(** The outcome of a run, with the limits of the buffer it ends in replaced. *)
Definition relimit (tl bs mc : Z) (r : option (result (@ImportBuffer.t Item)))
  : option (result (@ImportBuffer.t Item)) :=
  match r with
  | Some (Ok self) => Some (Ok (with_limits tl bs mc self))
  | _ => r
  end.

(** The attributes the next instance of the class finds, before its
    [__init__]: [queue] and [running] are class attributes that are only
    ever changed in place, so they are as the earlier instance left them;
    the limits and [results_list], which [__init__] assigns on the
    instance, are the class's own again. *)
Definition next_instance (earlier : @ImportBuffer.t Item)
  : @ImportBuffer.t Item :=
  {| ImportBuffer.queue := ImportBuffer.queue earlier;
     ImportBuffer.trigger_limit :=
       ImportBuffer.trigger_limit (@ImportBuffer.class_attrs Item);
     ImportBuffer.bite_size :=
       ImportBuffer.bite_size (@ImportBuffer.class_attrs Item);
     ImportBuffer.max_consumers :=
       ImportBuffer.max_consumers (@ImportBuffer.class_attrs Item);
     ImportBuffer.results_list := None;
     ImportBuffer.running := ImportBuffer.running earlier;
     ImportBuffer.procs := ImportBuffer.procs earlier;
     ImportBuffer.trace := ImportBuffer.trace earlier;
     ImportBuffer.inherited := ImportBuffer.inherited earlier |}.

(** The buffers a program can bring about by constructing instances of the
    class and calling [add] and [finish] on them, the consumers running in
    between.  [reach_other] is the program turning to another of its
    instances: the limits, the result list and the consumers it built are
    that instance's own, whatever they are; the queue, the running list and
    the processes are the ones all instances share. *)
Inductive reachable : @ImportBuffer.t Item -> Prop :=
| reach_first kw :
    reachable (ImportBuffer.__init__ ImportBuffer.class_attrs kw)
| reach_next earlier kw :
    reachable earlier ->
    reachable (ImportBuffer.__init__ (next_instance earlier) kw)
| reach_other self tl bs mc res inh :
    reachable self ->
    reachable (ImportBuffer.Make (ImportBuffer.queue self) tl bs mc res
                 (ImportBuffer.running self) (ImportBuffer.procs self)
                 (ImportBuffer.trace self) inh)
| reach_op fuel self o self' :
    reachable self ->
    exec_op fuel self o = Some (Ok self') ->
    reachable self'.

End WithItem.

(** What the reaping loop of [add] comes to on a list without repetition:
    a consumer that has exited goes, and the one after it is passed over. *)
Fixpoint skip_reap (procs : list bool) (running : list nat) : list nat :=
  match running with
  | [] => []
  | p :: rest =>
      if ImportBuffer.is_alive procs p then p :: skip_reap procs rest
      else match rest with
           | [] => []
           | p' :: rest' => p' :: skip_reap procs rest'
           end
  end.

(** The process table once the processes [pids] have exited. *)
Definition exited (pids : list nat) (procs : list bool) : list bool :=
  foldl (fun pr p => <[p := false]> pr) procs pids.

(** The methods of [BufferStats] that count. *)
Inductive stat_op : Type :=
| IncrementUpdates
| IncrementInsertions
| Decrement.

#[export] Instance stat_op_eq_dec : EqDecision stat_op.
Proof. solve_decision. Defined.

Definition apply_stat (self : BufferStats.t) (o : stat_op) : BufferStats.t :=
  match o with
  | IncrementUpdates => BufferStats.increment_updates self
  | IncrementInsertions => BufferStats.increment_insertions self
  | Decrement => BufferStats.decrement self
  end.

Definition count_stat (o : stat_op) (ops : list stat_op) : Z :=
  Z.of_nat (length (filter (fun o' => o' = o) ops)).

End BufferRuns.

(** * Properties *)

(** ** BufferQueue.consume *)

Section BufferQueueFacts.
Context {Item : Type}.
Implicit Types (q xs : list Item) (k : Z).

(** Loading a fresh queue with [put] keeps the insertion order. *)
Lemma put_all (xs : list Item) :
  foldl BufferQueue.put [] xs = xs.
Proof.
  rewrite <- (app_nil_l xs) at 2. generalize (@nil Item) as acc.
  induction xs as [|x xs IH]; intros acc; simpl.
  - by rewrite app_nil_r.
  - rewrite IH. unfold BufferQueue.put. by rewrite <- app_assoc.
Qed.

(** C2: on every queue, here one loaded with the items [xs] by successive
    [put]s, and for every limit, [consume] returns no batch: it raises
    [TypeError] at [len(self)], the queue class having no [__len__] (nor the
    [popleft] the comprehension would call). *)
Theorem consume_raises_TypeError (xs : list Item) k :
  BufferQueue.consume (foldl BufferQueue.put [] xs) k = Raise TypeError.
Proof. reflexivity. Qed.

End BufferQueueFacts.

(** ** BufferStats.calculate_processing_average *)

(** C5: whatever the counters and the two timestamps are (unset, equal or
    distinct), [calculate_processing_average] raises nothing and returns
    [None]; it computes no quotient. *)
Theorem calculate_processing_average_is_None (self : BufferStats.t) :
  BufferStats.calculate_processing_average self = Ok PyNone.
Proof. reflexivity. Qed.

(** With the timestamps unset the call does not fail, and with ten items
    processed between times 0 and 5 it does not return their quotient. *)
Lemma calculate_processing_average_examples :
  raises (BufferStats.calculate_processing_average BufferStats.class_attrs)
    = false /\
  BufferStats.calculate_processing_average
    (BufferStats.Build 10 0 0 0 (Some 0%Q) (Some 5%Q))
    <> Ok (PyFloat (10 / (5 - 0))%Q).
Proof. split; [reflexivity | discriminate]. Qed.

(** ** BufferConsumer *)

Section BufferConsumerFacts.
Context {Item : Type}.
Implicit Types (c : @BufferConsumer.t Item) (q r : list Item).
Implicit Types (res : option (list Item)) (b : Z).

Lemma run_body_got b x q res :
  BufferConsumer.run_body (BufferConsumer.Build b (x :: q) res)
  = Ok (BufferConsumer.Build b q (collected res [x]), false,
        (BufferConsumer.get_timeout, Some x)).
Proof. by destruct res. Qed.

Lemma run_body_empty b res :
  BufferConsumer.run_body (BufferConsumer.Build b [] res)
  = Ok (BufferConsumer.Build b [] res, true,
        (BufferConsumer.get_timeout, None)).
Proof. reflexivity. Qed.

Lemma collected_app res q1 q2 :
  collected (collected res q1) q2 = collected res (q1 ++ q2).
Proof. destruct res; simpl; [by rewrite app_assoc | done]. Qed.

Lemma run_loop_S fuel c log :
  BufferConsumer.run_loop (S fuel) c log
  = match BufferConsumer.run_body c with
    | Raise e => Some (Raise e)
    | Ok (c', done, ev) =>
        if done then Some (Ok (c', log ++ [ev]))
        else BufferConsumer.run_loop fuel c' (log ++ [ev])
    end.
Proof. reflexivity. Qed.

(** The loop takes one pass per item and one more for the timeout; any
    fuel beyond that is left unused. *)
Lemma run_loop_drains q : forall b res log extra,
  BufferConsumer.run_loop (S (length q) + extra)
    (BufferConsumer.Build b q res) log
  = Some (Ok (BufferConsumer.Build b [] (collected res q),
              log ++ gets_of q)).
Proof.
  induction q as [|x q IH]; intros b res log extra.
  - change (S (length []) + extra)%nat with (S extra).
    rewrite run_loop_S, run_body_empty.
    destruct res; simpl; by rewrite ?app_nil_r.
  - change (S (length (x :: q)) + extra)%nat
      with (S (S (length q) + extra)).
    rewrite run_loop_S, run_body_got, IH, collected_app.
    unfold gets_of. simpl. by rewrite <- app_assoc.
Qed.

(** With less fuel than that the loop is still running. *)
Lemma run_loop_short q : forall b res log fuel,
  (fuel <= length q)%nat ->
  BufferConsumer.run_loop fuel (BufferConsumer.Build b q res) log = None.
Proof.
  induction q as [|x q IH]; intros b res log fuel Hf.
  - simpl in Hf. by replace fuel with O by lia.
  - destruct fuel as [|fuel]; [done|]. simpl in Hf.
    rewrite run_loop_S, run_body_got. apply IH. lia.
Qed.

(** C4: the consumer asks the queue for one item per pass, each time with
    a timeout of half a second.  When an item comes back it is appended
    unchanged to the result list and the loop goes on ([done] stays false);
    when the [get] times out on an empty queue the pass sets [done] and
    raises nothing.  Run on a queue holding [q], the loop returns normally
    after [length q + 1] passes, with the items of [q] appended in order to
    the result list [r] and the queue empty. *)
Theorem run_appends_until_empty (b : Z) (x : Item) (q r : list Item)
  (extra : nat) :
  BufferConsumer.get_timeout = (1 # 2)%Q /\
  BufferConsumer.run_body (BufferConsumer.Build b (x :: q) (Some r))
  = Ok (BufferConsumer.Build b q (Some (r ++ [x])), false,
        ((1 # 2)%Q, Some x)) /\
  BufferConsumer.run_body (BufferConsumer.Build b [] (Some r))
  = Ok (BufferConsumer.Build b [] (Some r), true, ((1 # 2)%Q, None)) /\
  BufferConsumer.run (S (length q) + extra)
    (BufferConsumer.Build b q (Some r))
  = Some (Ok (BufferConsumer.Build b [] (Some (r ++ q)),
              map (fun y => ((1 # 2)%Q, Some y)) q ++ [((1 # 2)%Q, None)])).
Proof.
  split; [reflexivity|]. split; [apply run_body_got|].
  split; [apply run_body_empty|].
  unfold BufferConsumer.run. by rewrite run_loop_drains.
Qed.

(** C10: a consumer built from a queue and no [results_list] is constructed
    without an exception, its result list being [None]; its loop still takes
    every item [q] off the queue, one [get] each, keeps none of them, raises
    nothing, and returns on the first [get] that finds the queue empty. *)
Theorem run_without_results_list (bs : option Z) (q : list Item)
  (extra : nat) :
  let c := BufferConsumer.Build (default 1000 bs) q None in
  BufferConsumer.__init__ (BufferConsumer.Kwargs bs (Some q) None) = Ok c /\
  BufferConsumer.run (S (length q) + extra) c
  = Some (Ok (BufferConsumer.Build (default 1000 bs) [] None, gets_of q)) /\
  length (gets_of q) = S (length q).
Proof.
  split; [reflexivity|]. split.
  - unfold BufferConsumer.run. by rewrite run_loop_drains.
  - unfold gets_of. rewrite length_app, length_map. simpl. lia.
Qed.

(** C8, as amended: a consumer built without a queue raises
    [ParsingBufferException] whatever else is passed; built with a queue it
    is constructed, with or without a result list, which it stores as given.
    A report runner built without a queue or without a cache raises: its two
    tests do, and so does the constructor as a whole. *)
Theorem init_requires_queue_and_cache {Cache : Type}
  (kwc : @BufferConsumer.kwargs Item)
  (kwr : @MapReportRunner.kwargs Cache) :
  (BufferConsumer.kw_queue kwc = None ->
   BufferConsumer.__init__ kwc = Raise ParsingBufferException) /\
  (forall q, BufferConsumer.kw_queue kwc = Some q ->
   BufferConsumer.__init__ kwc
   = Ok (BufferConsumer.Build
           (default 1000 (BufferConsumer.kw_bite_size kwc)) q
           (BufferConsumer.kw_results_list kwc))) /\
  (MapReportRunner.kw_queue kwr = None \/
   MapReportRunner.kw_redis_cache kwr = None ->
   raises (MapReportRunner.check_kwargs kwr) = true /\
   raises (MapReportRunner.__init__ kwr) = true).
Proof.
  split; [|split].
  - intros H. unfold BufferConsumer.__init__. simpl. by rewrite H.
  - intros q H. unfold BufferConsumer.__init__. simpl. by rewrite H.
  - intros H. split; [|reflexivity].
    unfold MapReportRunner.check_kwargs.
    destruct H as [-> | H]; [done|].
    rewrite H. by destruct (MapReportRunner.kw_queue kwr).
Qed.

End BufferConsumerFacts.

Lemma init_requires_queue_and_cache_witness :
  BufferConsumer.__init__ (BufferConsumer.Kwargs (Some 10) None (Some [1%nat]))
    = Raise ParsingBufferException /\
  BufferConsumer.__init__ (BufferConsumer.Kwargs None (Some [1%nat]) None)
    = Ok (BufferConsumer.Build 1000 [1%nat] None) /\
  raises (MapReportRunner.check_kwargs
            (MapReportRunner.Kwargs (Some []) (@None unit))) = true.
Proof.
  split; [|split].
  - apply (proj1 (init_requires_queue_and_cache
             (BufferConsumer.Kwargs (Some 10) None (Some [1%nat]))
             (MapReportRunner.Kwargs (Some []) (@None unit)))).
    reflexivity.
  - apply (proj1 (proj2 (init_requires_queue_and_cache
             (BufferConsumer.Kwargs None (Some [1%nat]) None)
             (MapReportRunner.Kwargs (Some []) (@None unit))))).
    reflexivity.
  - apply (proj2 (proj2 (init_requires_queue_and_cache
             (BufferConsumer.Kwargs None (Some [1%nat]) None)
             (MapReportRunner.Kwargs (Some []) (@None unit))))).
    right. reflexivity.
Defined.

(** C8, as stated, fails: a consumer given a queue and no result list is
    constructed, no exception raised. *)
Lemma init_without_results_list_accepted :
  raises (BufferConsumer.__init__
            (BufferConsumer.Kwargs None (Some [1%nat; 2%nat]) None)) = false.
Proof. reflexivity. Qed.

(** The report runner's constructor raises even when it is given both a
    queue and a cache: [super(BufferConsumer, self)] rejects a [self] that
    is not a [BufferConsumer]. *)
Lemma MapReportRunner_init_raises {Cache : Type}
  (kw : @MapReportRunner.kwargs Cache) :
  MapReportRunner.__init__ kw = Raise TypeError.
Proof. reflexivity. Qed.

(** ** ImportBuffer *)

Section ImportBufferFacts.
Context {Item : Type}.
Implicit Types (self : @ImportBuffer.t Item) (item : Item).
Implicit Types (running : list nat) (procs : list bool).

(** [add] never raises: the consumer it may build is given a queue. *)
Lemma add_unfold self item :
  ImportBuffer.add self item
  = Ok (let s1 := ImportBuffer.put_item item self in
        let s2 := if bool_decide (length (ImportBuffer.running s1) = 0%nat)
                  then ImportBuffer.start_consumer s1 else s1 in
        ImportBuffer.set_running
          (ImportBuffer.reap (ImportBuffer.procs s2) (ImportBuffer.running s2))
          s2).
Proof.
  unfold ImportBuffer.add. cbv zeta.
  by destruct (bool_decide _).
Qed.

Lemma list_remove_length (x : nat) running :
  (length (ImportBuffer.list_remove x running) <= length running)%nat.
Proof.
  induction running as [|y l IH]; simpl; [lia|].
  destruct (decide (x = y)); simpl; lia.
Qed.

(** The iterator of the reaping loop is exhausted within as many passes as
    the list is long: fuel beyond that changes nothing. *)
Lemma reap_loop_fuel fuel : forall procs i running,
  (length running <= fuel + i)%nat ->
  ImportBuffer.reap_loop (S fuel) procs i running
  = ImportBuffer.reap_loop fuel procs i running.
Proof.
  induction fuel as [|fuel IH]; intros procs i running Hlen.
  - simpl. rewrite lookup_ge_None_2 by lia. reflexivity.
  - change (ImportBuffer.reap_loop (S (S fuel)) procs i running)
      with (match running !! i with
            | None => running
            | Some csmr =>
                if ImportBuffer.is_alive procs csmr
                then ImportBuffer.reap_loop (S fuel) procs (S i) running
                else ImportBuffer.reap_loop (S fuel) procs (S i)
                       (ImportBuffer.list_remove csmr running)
            end).
    change (ImportBuffer.reap_loop (S fuel) procs i running)
      with (match running !! i with
            | None => running
            | Some csmr =>
                if ImportBuffer.is_alive procs csmr
                then ImportBuffer.reap_loop fuel procs (S i) running
                else ImportBuffer.reap_loop fuel procs (S i)
                       (ImportBuffer.list_remove csmr running)
            end).
    destruct (running !! i) as [csmr|]; [|done].
    destruct (ImportBuffer.is_alive procs csmr).
    + apply IH. lia.
    + apply IH. pose proof (list_remove_length csmr running). lia.
Qed.

Lemma reap_loop_more_fuel extra : forall procs running,
  ImportBuffer.reap_loop (length running + extra) procs 0 running
  = ImportBuffer.reap procs running.
Proof.
  induction extra as [|extra IH]; intros procs running.
  - by rewrite Nat.add_0_r.
  - rewrite Nat.add_succ_r, reap_loop_fuel by lia. apply IH.
Qed.

Lemma reap_nil procs : ImportBuffer.reap procs [] = [].
Proof. reflexivity. Qed.

Lemma reap_singleton procs (p : nat) :
  ImportBuffer.reap procs [p]
  = if ImportBuffer.is_alive procs p then [p] else [].
Proof.
  unfold ImportBuffer.reap. simpl.
  destruct (ImportBuffer.is_alive procs p); [done|].
  by rewrite decide_True.
Qed.

Lemma is_alive_new procs :
  ImportBuffer.is_alive (procs ++ [true]) (length procs) = true.
Proof.
  unfold ImportBuffer.is_alive. by rewrite list_lookup_middle.
Qed.

(** With nothing running, [add] puts the item and starts one consumer. *)
Lemma add_starts_one self item :
  ImportBuffer.running self = [] ->
  ImportBuffer.add self item
  = Ok (ImportBuffer.start_consumer (ImportBuffer.put_item item self)).
Proof.
  intros Hr. rewrite add_unfold.
  destruct self as [q tl bs mc res run pr tr inh].
  simpl in *. subst run. simpl.
  by rewrite reap_singleton, is_alive_new.
Qed.

(** With anything in the running list, [add] starts no process, whatever
    the backlog and the limits are. *)
Lemma add_starts_none self item :
  ImportBuffer.running self <> [] ->
  exists self',
    ImportBuffer.add self item = Ok self' /\
    ImportBuffer.procs self' = ImportBuffer.procs self /\
    ImportBuffer.trace self' = ImportBuffer.trace self /\
    ImportBuffer.queue self' = ImportBuffer.queue self ++ [item].
Proof.
  intros Hr. rewrite add_unfold. eexists; split; [reflexivity|].
  destruct self as [q tl bs mc res run pr tr inh]. simpl in *.
  destruct run; [done|]. by simpl.
Qed.

(** While its one consumer is alive, [add] only puts the item. *)
Lemma add_while_alive self item (p : nat) :
  ImportBuffer.running self = [p] ->
  ImportBuffer.is_alive (ImportBuffer.procs self) p = true ->
  ImportBuffer.add self item = Ok (ImportBuffer.put_item item self).
Proof.
  intros Hr Ha. rewrite add_unfold.
  destruct self as [q tl bs mc res run pr tr inh]. simpl in *. subst run.
  simpl. by rewrite reap_singleton, Ha.
Qed.


(** A live consumer left alone with the queue takes everything in it,
    appends it to the result list it holds, and exits. *)
Lemma consumer_exits_alive self (p : nat) (extra : nat) :
  ImportBuffer.is_alive (ImportBuffer.procs self) p = true ->
  ImportBuffer.consumer_exits (S (length (ImportBuffer.queue self)) + extra)
    self p
  = Some (Ok (ImportBuffer.Make []
                (ImportBuffer.trigger_limit self)
                (ImportBuffer.bite_size self)
                (ImportBuffer.max_consumers self)
                (if ImportBuffer.owns self p
                 then collected (ImportBuffer.results_list self)
                        (ImportBuffer.queue self)
                 else ImportBuffer.results_list self)
                (ImportBuffer.running self)
                (<[p := false]> (ImportBuffer.procs self))
                (ImportBuffer.trace self)
                (ImportBuffer.inherited self))).
Proof.
  intros Ha.
  unfold ImportBuffer.consumer_exits, BufferConsumer.run,
    ImportBuffer.consumer_list.
  rewrite Ha, run_loop_drains.
  by destruct (ImportBuffer.owns self p).
Qed.

(** A producer that is faster than the consumer's timeout only fills the
    queue. *)
Lemma add_all_while_alive (p : nat) tl bs mc res pr tr (inh : nat)
  (items : list Item) :
  ImportBuffer.is_alive pr p = true ->
  forall q,
    add_all (ImportBuffer.Make q tl bs mc res [p] pr tr inh) items
    = Ok (ImportBuffer.Make (q ++ items) tl bs mc res [p] pr tr inh).
Proof.
  intros Ha. induction items as [|x items IH]; intros q; cbn [add_all].
  - by rewrite app_nil_r.
  - rewrite (add_while_alive _ _ p) by done.
    unfold mbind, result_bind. cbn [Py.bind].
    unfold ImportBuffer.put_item. cbn -[add_all].
    rewrite IH. unfold BufferQueue.put. by rewrite <- app_assoc.
Qed.

(** [finish] on a buffer whose one consumer is alive waits for it and
    returns the results so far followed by the backlog. *)
Lemma finish_one_alive (p : nat) q tl bs mc (r : list Item) pr tr
  (inh extra : nat) :
  ImportBuffer.is_alive pr p = true ->
  (inh <= p)%nat ->
  ImportBuffer.finish (S (length q) + extra)
    (ImportBuffer.Make q tl bs mc (Some r) [p] pr tr inh)
  = Some (Ok (ImportBuffer.Make [] tl bs mc (Some (r ++ q)) [p]
                (<[p := false]> pr) (tr ++ [ImportBuffer.Joined p]) inh,
              r ++ q)).
Proof.
  intros Ha Hown. unfold ImportBuffer.finish, ImportBuffer.join_all,
    ImportBuffer.join.
  cbn [ImportBuffer.running].
  pose proof (consumer_exits_alive
                (ImportBuffer.Make q tl bs mc (Some r) [p] pr tr inh)
                p extra Ha) as H.
  cbn [ImportBuffer.queue] in H. rewrite H.
  unfold ImportBuffer.owns. cbn [ImportBuffer.inherited].
  rewrite bool_decide_eq_true_2 by done. reflexivity.
Qed.

(** When every item is added before the consumer times out, [finish]
    returns all of them, in order. *)
Lemma finish_after_adds kw item (items : list Item) (extra : nat) :
  exists b b',
    add_all (ImportBuffer.__init__ ImportBuffer.class_attrs kw)
      (item :: items) = Ok b /\
    ImportBuffer.finish (S (length (item :: items)) + extra) b
    = Some (Ok (b', item :: items)).
Proof.
  cbn [add_all]. rewrite add_starts_one by reflexivity.
  unfold mbind, result_bind. cbn [Py.bind].
  unfold ImportBuffer.start_consumer, ImportBuffer.put_item,
    ImportBuffer.__init__, BufferQueue.put.
  cbn -[add_all ImportBuffer.finish length Nat.add].
  rewrite (add_all_while_alive 0%nat) by reflexivity.
  eexists _, _. split; [reflexivity|].
  change (item :: items) with ([item] ++ items).
  by rewrite finish_one_alive by (reflexivity || lia).
Qed.

(** Neither [add] nor [finish] calls anything back. *)
Lemma calls_app (tr1 tr2 : list (@ImportBuffer.event Item)) :
  calls (tr1 ++ tr2) = calls tr1 ++ calls tr2.
Proof.
  induction tr1 as [|[pid|pid|f args] tr1 IH]; simpl; by rewrite ?IH.
Qed.

Lemma add_calls self item self' :
  ImportBuffer.add self item = Ok self' ->
  calls (ImportBuffer.trace self') = calls (ImportBuffer.trace self).
Proof.
  rewrite add_unfold. intros [= <-].
  destruct self as [q tl bs mc res run pr tr inh]. simpl.
  destruct (bool_decide _); simpl; [|done].
  by rewrite calls_app, app_nil_r.
Qed.

Lemma consumer_exits_trace fuel self (p : nat) self' :
  ImportBuffer.consumer_exits fuel self p = Some (Ok self') ->
  ImportBuffer.trace self' = ImportBuffer.trace self.
Proof.
  unfold ImportBuffer.consumer_exits.
  destruct (ImportBuffer.is_alive _ _); [|by intros [= <-]].
  destruct (BufferConsumer.run _ _) as [[[c lg]|e]|]; try done.
  by intros [= <-].
Qed.

Lemma join_all_calls fuel (pids : list nat) : forall self self',
  ImportBuffer.join_all fuel self pids = Some (Ok self') ->
  calls (ImportBuffer.trace self') = calls (ImportBuffer.trace self).
Proof.
  induction pids as [|p pids IH]; intros self self'; simpl.
  - by intros [= <-].
  - unfold ImportBuffer.join.
    destruct (ImportBuffer.consumer_exits fuel self p)
      as [[s1|e]|] eqn:He; try done.
    intros H. rewrite (IH _ _ H). simpl.
    rewrite calls_app, app_nil_r.
    by rewrite (consumer_exits_trace _ _ _ _ He).
Qed.

Lemma finish_calls fuel self self' (r : list Item) :
  ImportBuffer.finish fuel self = Some (Ok (self', r)) ->
  calls (ImportBuffer.trace self') = calls (ImportBuffer.trace self).
Proof.
  unfold ImportBuffer.finish.
  destruct (ImportBuffer.join_all _ _ _) as [[s1|e]|] eqn:Hj; try done.
  destruct (ImportBuffer.results_list s1); [|done].
  intros [= <- _]. by apply join_all_calls in Hj.
Qed.

End ImportBufferFacts.

(** *** The buffer on concrete runs *)

(** C1: a buffer with [trigger_limit = 2] and [max_consumers = 3] that has
    taken four items holds a backlog of four, above the trigger limit, and
    one running consumer, below the maximum; the fifth [add] puts its item
    and starts no second consumer: the running list and the process table
    are as before, and one process was started in all. *)
Theorem add_starts_no_second_consumer :
  let b0 := ImportBuffer.__init__ ImportBuffer.class_attrs
              (ImportBuffer.Kwargs None None (Some 2) None (Some 3)) in
  let b4 := ImportBuffer.Build [1; 2; 3; 4]%nat 2 1000 3 (Some [])
              [0%nat] [true] [ImportBuffer.Started 0] in
  add_all b0 [1; 2; 3; 4]%nat = Ok b4 /\
  ImportBuffer.trigger_limit b4
    < Z.of_nat (length (ImportBuffer.queue b4)) /\
  Z.of_nat (length (ImportBuffer.running b4)) < ImportBuffer.max_consumers b4 /\
  ImportBuffer.add b4 5%nat
  = Ok (ImportBuffer.Build [1; 2; 3; 4; 5]%nat 2 1000 3 (Some [])
          [0%nat] [true] [ImportBuffer.Started 0]).
Proof.
  split; [vm_compute; reflexivity|]. split; [vm_compute; reflexivity|].
  split; vm_compute; reflexivity.
Qed.

(** C3: two items are added to a fresh buffer, the consumer started by the
    first [add] having taken that item and timed out before the second
    [add].  That [add] finds the exited consumer still listed, starts
    nothing, and then drops it from the list; [finish] has nobody to wait
    for and returns one result, the second item still in the queue. *)
Theorem finish_misses_late_item :
  let b0 := ImportBuffer.__init__ ImportBuffer.class_attrs
              (ImportBuffer.Kwargs None None None None None) in
  exists b1 b2 b3,
    ImportBuffer.add b0 1%nat = Ok b1 /\
    ImportBuffer.consumer_exits 2 b1 0 = Some (Ok b2) /\
    ImportBuffer.add b2 2%nat = Ok b3 /\
    ImportBuffer.running b3 = [] /\
    ImportBuffer.queue b3 = [2%nat] /\
    forall fuel, ImportBuffer.finish fuel b3 = Some (Ok (b3, [1%nat])).
Proof.
  exists (ImportBuffer.Build [1%nat] 5000 1000 5 (Some []) [0%nat] [true]
            [ImportBuffer.Started 0]),
         (ImportBuffer.Build [] 5000 1000 5 (Some [1%nat]) [0%nat] [false]
            [ImportBuffer.Started 0]),
         (ImportBuffer.Build [2%nat] 5000 1000 5 (Some [1%nat]) [] [false]
            [ImportBuffer.Started 0]).
  split; [vm_compute; reflexivity|]. split; [vm_compute; reflexivity|].
  split; [vm_compute; reflexivity|]. split; [reflexivity|].
  split; [reflexivity|]. intros fuel. reflexivity.
Qed.

(** C7: a buffer built with a completion callback takes three items and is
    finished; [finish] returns the three results, and the trace of the run
    holds the start and the join of the one consumer and no call of the
    callback. *)
Theorem finish_calls_no_completion_callback :
  let b0 := ImportBuffer.__init__ ImportBuffer.class_attrs
              (ImportBuffer.Kwargs (Some 7%nat) None None None None) in
  exists b b',
    add_all b0 [1; 2; 3]%nat = Ok b /\
    ImportBuffer.finish 4 b = Some (Ok (b', [1; 2; 3]%nat)) /\
    ImportBuffer.trace b'
    = [ImportBuffer.Started 0; ImportBuffer.Joined 0] /\
    calls (ImportBuffer.trace b') = [].
Proof.
  exists (ImportBuffer.Build [1; 2; 3]%nat 5000 1000 5 (Some []) [0%nat]
            [true] [ImportBuffer.Started 0]),
         (ImportBuffer.Build [] 5000 1000 5 (Some [1; 2; 3]%nat) [0%nat]
            [false] [ImportBuffer.Started 0; ImportBuffer.Joined 0]).
  split; [vm_compute; reflexivity|]. split; [vm_compute; reflexivity|].
  split; reflexivity.
Qed.

(** ** MapReportRunner.run *)

Section MapReportRunnerFacts.
Context {Cache : Type}.
Variable load : Cache -> Map.t -> Cache * Map.t.

(** On an empty queue the loop returns at its first [get]. *)
Lemma run_empty_queue (fuel : nat) (cache : Cache) :
  MapReportRunner.run load (S fuel) (MapReportRunner.Build [] cache)
  = Some (Ok (MapReportRunner.Build [] cache)).
Proof. reflexivity. Qed.

(** A map that carries a report identifier is not looked up. *)
Lemma report_loop_has_report (fuel : nat) (cache : Cache) (m : Map.t) :
  Map.hasReport m = true ->
  MapReportRunner.report_loop load (S fuel) cache m = Some (cache, m).
Proof.
  unfold Map.hasReport. simpl. by destruct (Map.report_id m).
Qed.

(** A queue of maps that all carry a report identifier is worked off, one
    pass per map and one for the timeout. *)
Lemma run_all_reported (maps : list Map.t) : forall (cache : Cache) extra,
  Forall (fun m => Map.hasReport m = true) maps ->
  MapReportRunner.run load (S (length maps) + extra)
    (MapReportRunner.Build maps cache)
  = Some (Ok (MapReportRunner.Build [] cache)).
Proof.
  induction maps as [|m maps IH]; intros cache extra Hall; [done|].
  inversion Hall as [|m' maps' Hm Hrest]; subst.
  change (S (length (m :: maps)) + extra)%nat
    with (S (S (length maps) + extra)).
  cbn [MapReportRunner.run BufferQueue.get MapReportRunner.queue
       MapReportRunner.redis_cache].
  change (S (length maps) + extra)%nat with (S (length maps + extra)).
  rewrite report_loop_has_report by done.
  change (S (length maps + extra)) with (S (length maps) + extra)%nat.
  by apply IH.
Qed.

(** The cache never learns a report identifier for a map that has none. *)
Hypothesis load_keeps_absent : forall cache m,
  Map.report_id m = None -> Map.report_id (load cache m).2 = None.

(** Then the inner loop never ends, whatever fuel it is given. *)
Lemma report_loop_diverges (fuel : nat) : forall (cache : Cache) (m : Map.t),
  Map.report_id m = None ->
  MapReportRunner.report_loop load fuel cache m = None.
Proof.
  induction fuel as [|fuel IH]; intros cache m Hm; [done|].
  simpl. rewrite Hm.
  pose proof (load_keeps_absent cache m Hm) as Hl.
  destruct (load cache m) as [cache' m']. by apply IH.
Qed.

(** And [run] never returns once it has taken such a map off the queue. *)
Lemma run_diverges (fuel : nat) (cache : Cache) (m : Map.t)
  (maps : list Map.t) :
  Map.report_id m = None ->
  MapReportRunner.run load fuel (MapReportRunner.Build (m :: maps) cache)
  = None.
Proof.
  intros Hm. destruct fuel as [|fuel]; [done|].
  simpl. by rewrite report_loop_diverges.
Qed.

End MapReportRunnerFacts.

(** C6: the queue holds one map without a report identifier and nothing
    follows it; the cache has no identifier for the map, so loading leaves
    it as it is.  Whatever the fuel, [run] has not returned: it never gets
    back to the [get] whose timeout would end it. *)
Theorem run_never_returns_without_report :
  forall fuel : nat,
    MapReportRunner.run (fun (cache : unit) m => (cache, m)) fuel
      (MapReportRunner.Build [Map.Build (Some 1) None] tt)
    = None.
Proof.
  intros fuel. by apply run_diverges.
Qed.

(** * Further properties *)

(** ** BufferStats: the counters *)

Section BufferStatsFacts.
Import BufferRuns.

Lemma count_stat_cons (o o' : stat_op) (ops : list stat_op) :
  count_stat o (o' :: ops)
  = (if decide (o' = o) then 1 else 0) + count_stat o ops.
Proof.
  unfold count_stat. rewrite filter_cons.
  destruct (decide (o' = o)); simpl length; lia.
Qed.

(** X2: after any sequence of [increment_updates], [increment_insertions]
    and [decrement] calls each counter has grown by the number of calls of
    its method ([decrement] adds to [deletes]), and [processed] and the two
    timestamps are as they were. *)
Theorem counters_count_calls (ops : list stat_op) (self : BufferStats.t) :
  let self' := foldl apply_stat self ops in
  BufferStats.updates self'
    = BufferStats.updates self + count_stat IncrementUpdates ops /\
  BufferStats.adds self'
    = BufferStats.adds self + count_stat IncrementInsertions ops /\
  BufferStats.deletes self'
    = BufferStats.deletes self + count_stat Decrement ops /\
  BufferStats.processed self' = BufferStats.processed self /\
  BufferStats.start_time self' = BufferStats.start_time self /\
  BufferStats.end_time self' = BufferStats.end_time self.
Proof.
  revert self. induction ops as [|o ops IH]; intros self; simpl.
  - unfold count_stat. simpl. repeat split; lia.
  - specialize (IH (apply_stat self o)). simpl in IH.
    destruct IH as (Hu & Ha & Hd & Hp & Hs & He).
    rewrite Hu, Ha, Hd, Hp, Hs, He, !count_stat_cons.
    destruct o; simpl; repeat split; try lia;
      repeat case_decide; try congruence; lia.
Qed.

End BufferStatsFacts.

(** ** ImportBuffer: the reaping loop of [add] *)

Section ReapFacts.
Import BufferRuns.
Implicit Types (procs : list bool) (running pre rest : list nat).

Local Abbreviation alive procs :=
  (fun p : nat => ImportBuffer.is_alive procs p = true).

Lemma list_remove_head (x : nat) pre rest :
  x ∉ pre ->
  ImportBuffer.list_remove x (pre ++ x :: rest) = pre ++ rest.
Proof.
  induction pre as [|y pre IH]; intros Hx; simpl.
  - by rewrite decide_True.
  - apply not_elem_of_cons in Hx as [Hxy Hx].
    rewrite decide_False by done. by rewrite IH.
Qed.

Lemma reap_loop_exhausted fuel procs (i : nat) running :
  (length running <= i)%nat ->
  ImportBuffer.reap_loop fuel procs i running = running.
Proof.
  intros Hi. destruct fuel; [done|]. simpl.
  by rewrite lookup_ge_None_2.
Qed.

(** The loop at position [length pre], the consumers [pre] before it
    being those it has kept. *)
Lemma reap_loop_skip procs fuel : forall pre rest,
  NoDup (pre ++ rest) ->
  (length rest <= fuel)%nat ->
  ImportBuffer.reap_loop fuel procs (length pre) (pre ++ rest)
  = pre ++ skip_reap procs rest.
Proof.
  induction fuel as [|fuel IH]; intros pre rest Hnd Hlen.
  - destruct rest; [done | simpl in Hlen; lia].
  - destruct rest as [|p rest].
    { apply reap_loop_exhausted. rewrite length_app. simpl. lia. }
    cbn [ImportBuffer.reap_loop]. rewrite list_lookup_middle by done.
    cbn [skip_reap].
    destruct (ImportBuffer.is_alive procs p).
    + replace (S (length pre)) with (length (pre ++ [p]))
        by (rewrite length_app; simpl; lia).
      replace (pre ++ p :: rest) with ((pre ++ [p]) ++ rest)
        by (by rewrite <- app_assoc).
      rewrite IH.
      * by rewrite <- app_assoc.
      * by rewrite <- app_assoc.
      * simpl in Hlen. lia.
    + apply NoDup_app in Hnd as (Hpre & Hdisj & Hrest).
      apply NoDup_cons in Hrest as (Hp & Hrest).
      rewrite list_remove_head by (intros Hin; apply (Hdisj p Hin); left).
      destruct rest as [|p' rest].
      { rewrite app_nil_r. apply reap_loop_exhausted. lia. }
      replace (S (length pre)) with (length (pre ++ [p']))
        by (rewrite length_app; simpl; lia).
      replace (pre ++ p' :: rest) with ((pre ++ [p']) ++ rest)
        by (by rewrite <- app_assoc).
      rewrite IH.
      * by rewrite <- app_assoc.
      * rewrite <- app_assoc. simpl. apply NoDup_app. split; [done|].
        split; [|done].
        intros x Hx Hin. apply (Hdisj x Hx). by right.
      * simpl in Hlen. lia.
Qed.

(** X3: on a running list that names no consumer twice, the reaping loop
    of [add] keeps every live consumer, drops a consumer that has exited,
    and passes over whichever consumer comes right after a dropped one,
    live or not. *)
Theorem reap_skips_after_removal procs running :
  NoDup running ->
  ImportBuffer.reap procs running = skip_reap procs running.
Proof.
  intros Hnd. unfold ImportBuffer.reap.
  by apply (reap_loop_skip procs (length running) [] running).
Qed.

Lemma list_remove_sublist (x : nat) running :
  sublist (ImportBuffer.list_remove x running) running.
Proof.
  induction running as [|y l IH]; simpl; [done|].
  destruct (decide (x = y)).
  - by apply sublist_cons.
  - by apply sublist_skip.
Qed.

Lemma list_remove_dead procs (x : nat) running :
  ImportBuffer.is_alive procs x = false ->
  filter (alive procs) (ImportBuffer.list_remove x running)
  = filter (alive procs) running.
Proof.
  intros Hx. induction running as [|y l IH]; simpl; [done|].
  destruct (decide (x = y)) as [<-|Hne].
  - rewrite filter_cons_False; [done|]. by rewrite Hx.
  - rewrite !filter_cons, IH. done.
Qed.

Lemma reap_loop_keeps_alive procs fuel : forall (i : nat) running,
  filter (alive procs) (ImportBuffer.reap_loop fuel procs i running)
  = filter (alive procs) running /\
  sublist (ImportBuffer.reap_loop fuel procs i running) running.
Proof.
  induction fuel as [|fuel IH]; intros i running; [done|].
  simpl. destruct (running !! i) as [csmr|]; [|done].
  destruct (ImportBuffer.is_alive procs csmr) eqn:Ha; [apply IH|].
  destruct (IH (S i) (ImportBuffer.list_remove csmr running)) as [Hf Hs].
  split.
  - by rewrite Hf, list_remove_dead.
  - etrans; [exact Hs | apply list_remove_sublist].
Qed.

(** X4: whatever the running list and the process table are, the reaping
    loop removes no live consumer and reorders nothing: the live consumers
    of the list it leaves are those of the list it found, in the same
    order, and the list it leaves is a sublist of the one it found. *)
Theorem reap_keeps_live_consumers procs running :
  filter (alive procs) (ImportBuffer.reap procs running)
  = filter (alive procs) running /\
  sublist (ImportBuffer.reap procs running) running.
Proof. apply reap_loop_keeps_alive. Qed.

End ReapFacts.

Lemma reap_skips_after_removal_witness :
  NoDup [0; 1; 2; 3]%nat /\
  ImportBuffer.reap [false; false; true; false] [0; 1; 2; 3]%nat
  = [1; 2]%nat.
Proof.
  assert (H : NoDup [0; 1; 2; 3]%nat).
  { repeat (apply NoDup_cons_2;
            [rewrite ?not_elem_of_cons; repeat split;
               [lia .. | apply not_elem_of_nil] |]).
    apply NoDup_nil_2. }
  split; [exact H|].
  rewrite (reap_skips_after_removal [false; false; true; false] _ H).
  reflexivity.
Defined.

(** ** ImportBuffer: [finish] on any buffer *)

Section FinishFacts.
Import BufferRuns.
Context {Item : Type}.
Implicit Types (self : @ImportBuffer.t Item) (procs : list bool).
Implicit Types (pids : list nat) (q : list Item).

Lemma is_alive_insert_same procs (p : nat) :
  ImportBuffer.is_alive (<[p := false]> procs) p = false.
Proof.
  unfold ImportBuffer.is_alive.
  destruct (decide (p < length procs)%nat).
  - by rewrite list_lookup_insert_eq.
  - rewrite list_insert_ge by lia. by rewrite lookup_ge_None_2 by lia.
Qed.

Lemma is_alive_insert procs (p p' : nat) :
  ImportBuffer.is_alive (<[p := false]> procs) p' = true ->
  ImportBuffer.is_alive procs p' = true /\ p' <> p.
Proof.
  destruct (decide (p' = p)) as [->|Hne].
  - by rewrite is_alive_insert_same.
  - unfold ImportBuffer.is_alive.
    by rewrite list_lookup_insert_ne.
Qed.

Lemma insert_dead procs (p : nat) :
  ImportBuffer.is_alive procs p = false -> <[p := false]> procs = procs.
Proof.
  unfold ImportBuffer.is_alive. destruct (procs !! p) as [b|] eqn:Hp.
  - intros ->. by apply list_insert_id.
  - intros _. apply list_insert_ge. by apply lookup_ge_None.
Qed.

Lemma is_alive_exited pids : forall procs (p : nat),
  ImportBuffer.is_alive (exited pids procs) p = true ->
  ImportBuffer.is_alive procs p = true /\ p ∉ pids.
Proof.
  induction pids as [|p0 pids IH]; intros procs p; simpl.
  - intros H. split; [done | apply not_elem_of_nil].
  - intros H. apply IH in H as [H Hnin].
    apply is_alive_insert in H as [H Hne].
    split; [done|]. by apply not_elem_of_cons.
Qed.

Lemma collected_nil (res : option (list Item)) : collected res [] = res.
Proof. destruct res; simpl; [by rewrite app_nil_r | done]. Qed.

(** [consumer_exits] with any fuel above the length of the queue. *)
Lemma consumer_exits_enough (fuel : nat) self (p : nat) :
  (length (ImportBuffer.queue self) < fuel)%nat ->
  ImportBuffer.consumer_exits fuel self p
  = Some (Ok (if ImportBuffer.is_alive (ImportBuffer.procs self) p
              then ImportBuffer.Make []
                     (ImportBuffer.trigger_limit self)
                     (ImportBuffer.bite_size self)
                     (ImportBuffer.max_consumers self)
                     (if ImportBuffer.owns self p
                      then collected (ImportBuffer.results_list self)
                             (ImportBuffer.queue self)
                      else ImportBuffer.results_list self)
                     (ImportBuffer.running self)
                     (<[p := false]> (ImportBuffer.procs self))
                     (ImportBuffer.trace self)
                     (ImportBuffer.inherited self)
              else self)).
Proof.
  intros Hf.
  destruct (ImportBuffer.is_alive (ImportBuffer.procs self) p) eqn:Ha.
  - replace fuel
      with (S (length (ImportBuffer.queue self))
            + (fuel - S (length (ImportBuffer.queue self))))%nat by lia.
    by apply consumer_exits_alive.
  - unfold ImportBuffer.consumer_exits. by rewrite Ha.
Qed.

(** Joining the consumers [pids] in turn: the first live one among them
    takes the whole queue, to the result list it holds, and all of them
    have exited at the end. *)
Lemma join_all_enough (fuel : nat) pids :
  forall q tl bs mc res run procs tr (inh : nat),
  (length q < fuel)%nat ->
  ImportBuffer.join_all fuel
    (ImportBuffer.Make q tl bs mc res run procs tr inh) pids
  = Some (Ok (ImportBuffer.Make
                (match List.find (ImportBuffer.is_alive procs) pids with
                 | Some _ => []
                 | None => q
                 end) tl bs mc
                (match List.find (ImportBuffer.is_alive procs) pids with
                 | Some p =>
                     if bool_decide (inh <= p)%nat then collected res q
                     else res
                 | None => res
                 end) run
                (exited pids procs)
                (tr ++ map ImportBuffer.Joined pids) inh)).
Proof.
  induction pids as [|p pids IH];
    intros q tl bs mc res run procs tr inh Hf.
  - simpl. by rewrite app_nil_r.
  - cbn [ImportBuffer.join_all List.find exited foldl map].
    unfold ImportBuffer.join.
    rewrite consumer_exits_enough by done.
    unfold ImportBuffer.owns.
    cbn [ImportBuffer.procs ImportBuffer.queue ImportBuffer.results_list
         ImportBuffer.trigger_limit ImportBuffer.bite_size
         ImportBuffer.max_consumers ImportBuffer.running ImportBuffer.trace
         ImportBuffer.inherited].
    destruct (ImportBuffer.is_alive procs p) eqn:Ha.
    + unfold ImportBuffer.log_event.
      cbn [ImportBuffer.procs ImportBuffer.queue
           ImportBuffer.results_list ImportBuffer.trigger_limit
           ImportBuffer.bite_size ImportBuffer.max_consumers
           ImportBuffer.running ImportBuffer.trace ImportBuffer.inherited].
      rewrite IH by (simpl; lia).
      rewrite collected_nil, <- app_assoc. simpl.
      destruct (List.find _ pids) as [p'|]; [|done].
      by destruct (bool_decide (inh <= p')%nat).
    + unfold ImportBuffer.log_event.
      cbn [ImportBuffer.procs ImportBuffer.queue
           ImportBuffer.results_list ImportBuffer.trigger_limit
           ImportBuffer.bite_size ImportBuffer.max_consumers
           ImportBuffer.running ImportBuffer.trace ImportBuffer.inherited].
      rewrite IH by done.
      rewrite <- app_assoc. simpl. unfold exited.
      by rewrite (insert_dead procs p Ha).
Qed.


End FinishFacts.


(** ** ImportBuffer: what every run keeps *)

Section RunFacts.
Import BufferRuns.
Context {Item : Type}.
Implicit Types (self : @ImportBuffer.t Item) (items : list Item).
Implicit Types (ops : list (@op Item)).

Lemma conserved_queue_length items self :
  conserved items self ->
  (length (ImportBuffer.queue self) <= length items)%nat.
Proof.
  intros [(r & _ & <-) _]. rewrite length_app. lia.
Qed.

Lemma is_alive_app_true procs (pid : nat) :
  ImportBuffer.is_alive (procs ++ [true]) pid = true ->
  ImportBuffer.is_alive procs pid = true \/ pid = length procs.
Proof.
  unfold ImportBuffer.is_alive.
  destruct (decide (pid < length procs)%nat) as [Hlt|Hge].
  - rewrite lookup_app_l by done. by left.
  - destruct (decide (pid = length procs)) as [->|Hne]; [by right|].
    rewrite lookup_ge_None_2; [done|]. rewrite length_app. simpl. lia.
Qed.

Lemma exited_length (pids : list nat) : forall procs,
  length (exited pids procs) = length procs.
Proof.
  induction pids as [|p pids IH]; intros procs; [done|].
  unfold exited in *. simpl. by rewrite IH, length_insert.
Qed.

(** *** The items *)

Lemma conserved_add items self item :
  conserved items self ->
  exists self',
    ImportBuffer.add self item = Ok self' /\
    conserved (items ++ [item]) self'.
Proof.
  intros [(r & Hres & Hitems) [Hown Hinh]].
  rewrite add_unfold. eexists; split; [reflexivity|].
  destruct self as [q tl bs mc res run procs tr inh]. simpl in *. subst res.
  assert (Hq : r ++ BufferQueue.put q item = items ++ [item]).
  { unfold BufferQueue.put. by rewrite app_assoc, Hitems. }
  destruct (bool_decide (length run = 0%nat)); unfold conserved; simpl.
  - split; [by exists r|]. split.
    + intros pid Ha. apply is_alive_app_true in Ha as [Ha | ->]; [|done].
      by apply Hown.
    + rewrite length_app. simpl. lia.
  - split; [by exists r|]. done.
Qed.

Lemma conserved_step items self (pid : nat) :
  conserved items self ->
  exists self',
    consumer_step self pid = Ok self' /\ conserved items self'.
Proof.
  intros [(r & Hres & Hitems) [Hown Hinh]].
  unfold consumer_step.
  destruct (ImportBuffer.is_alive (ImportBuffer.procs self) pid) eqn:Hp.
  2: { eexists; split; [reflexivity|]. split; [by exists r|done]. }
  pose proof (Hown _ Hp) as Ho.
  destruct self as [q tl bs mc res run procs tr inh]. simpl in *. subst res.
  unfold ImportBuffer.consumer_list, ImportBuffer.owns.
  cbn [ImportBuffer.inherited ImportBuffer.results_list].
  rewrite bool_decide_eq_true_2 by done.
  destruct q as [|x q].
  - rewrite run_body_empty. eexists; split; [reflexivity|].
    unfold conserved. simpl. split; [by exists r|]. split.
    + intros pid' Ha. apply is_alive_insert in Ha as [Ha _]. by apply Hown.
    + by rewrite length_insert.
  - rewrite run_body_got. eexists; split; [reflexivity|].
    unfold conserved. simpl. split; [|done].
    exists (r ++ [x]). by rewrite <- app_assoc.
Qed.

Lemma conserved_exit items self (pid : nat) (fuel : nat) :
  conserved items self ->
  (length items < fuel)%nat ->
  exists self',
    ImportBuffer.consumer_exits fuel self pid = Some (Ok self') /\
    conserved items self'.
Proof.
  intros Hc Hf. pose proof (conserved_queue_length _ _ Hc) as Hq.
  rewrite consumer_exits_enough by lia.
  eexists; split; [reflexivity|].
  destruct (ImportBuffer.is_alive (ImportBuffer.procs self) pid) eqn:Hp;
    [|done].
  destruct Hc as [(r & Hres & Hitems) [Hown Hinh]].
  unfold ImportBuffer.owns. rewrite bool_decide_eq_true_2 by auto.
  rewrite Hres. unfold conserved. simpl. split.
  - exists (r ++ ImportBuffer.queue self). by rewrite app_nil_r.
  - split.
    + intros pid' Ha. apply is_alive_insert in Ha as [Ha _]. by apply Hown.
    + by rewrite length_insert.
Qed.

Lemma conserved_finish items self (fuel : nat) :
  conserved items self ->
  (length items < fuel)%nat ->
  exists self' (r : list Item),
    ImportBuffer.finish fuel self = Some (Ok (self', r)) /\
    conserved items self'.
Proof.
  intros Hc Hf. pose proof (conserved_queue_length _ _ Hc) as Hq.
  destruct Hc as [(r & Hres & Hitems) [Hown Hinh]].
  destruct self as [q tl bs mc res run procs tr inh]. simpl in *. subst res.
  unfold ImportBuffer.finish. cbn [ImportBuffer.running].
  rewrite join_all_enough by lia.
  cbn [ImportBuffer.results_list].
  assert (Hlive : forall pid,
             ImportBuffer.is_alive (exited run procs) pid = true ->
             (inh <= pid)%nat).
  { intros pid Ha. apply is_alive_exited in Ha as [Ha _]. by apply Hown. }
  assert (Hlen : (inh <= length (exited run procs))%nat)
    by by rewrite exited_length.
  destruct (List.find (ImportBuffer.is_alive procs) run) as [p|] eqn:Hfind.
  - apply find_some in Hfind as [_ Hp].
    rewrite bool_decide_eq_true_2 by auto. cbn [collected].
    eexists _, _. split; [reflexivity|].
    split; [|done]. exists (r ++ q). simpl. by rewrite app_nil_r.
  - eexists _, _. split; [reflexivity|]. split; [by exists r|done].
Qed.

Lemma added_length ops : (length (added ops) <= length ops)%nat.
Proof.
  induction ops as [|[x|p|p|] ops IH]; simpl; lia.
Qed.

(** Every run of such a buffer returns normally, given fuel above the
    number of items it finds and adds, and conserves them. *)
Lemma exec_conserved ops : forall items self (fuel : nat),
  conserved items self ->
  (length items + length (added ops) < fuel)%nat ->
  exists self',
    exec fuel self ops = Some (Ok self') /\
    conserved (items ++ added ops) self'.
Proof.
  induction ops as [|o ops IH]; intros items self fuel Hc Hf.
  - exists self. simpl. by rewrite app_nil_r.
  - destruct o as [x|p|p|]; cbn [exec exec_op added] in *.
    + destruct (conserved_add _ _ x Hc) as (s1 & -> & H1).
      destruct (IH (items ++ [x]) s1 fuel H1) as (s2 & -> & H2).
      { rewrite length_app. simpl in *. lia. }
      exists s2. split; [done|]. by rewrite <- app_assoc in H2.
    + destruct (conserved_step _ _ p Hc) as (s1 & -> & H1).
      by apply IH.
    + destruct (conserved_exit _ _ p fuel Hc) as (s1 & -> & H1); [lia|].
      by apply IH.
    + destruct (conserved_finish _ _ fuel Hc) as (s1 & r & -> & H1);
        [lia|].
      by apply IH.
Qed.

(** A buffer constructed when every process has exited finds the backlog
    of the queue and nobody working on it. *)
Lemma conserved_init (earlier : @ImportBuffer.t Item) kw :
  (forall pid,
     ImportBuffer.is_alive (ImportBuffer.procs earlier) pid = false) ->
  conserved (ImportBuffer.queue earlier)
    (ImportBuffer.__init__ (next_instance earlier) kw).
Proof.
  intros Hp. unfold conserved. simpl. split; [by exists []|].
  split; [|done]. intros pid Ha. by rewrite Hp in Ha.
Qed.

(** *** The consumers *)

Lemma single_consumer_keeps self self' :
  ImportBuffer.running self' = ImportBuffer.running self ->
  (forall pid,
     ImportBuffer.is_alive (ImportBuffer.procs self') pid = true ->
     ImportBuffer.is_alive (ImportBuffer.procs self) pid = true) ->
  single_consumer self -> single_consumer self'.
Proof.
  intros Hr Hl [Hlen Hlive]. split; rewrite Hr; [done|].
  intros pid Ha. by apply Hlive, Hl.
Qed.

Lemma single_consumer_add self item self' :
  single_consumer self ->
  ImportBuffer.add self item = Ok self' ->
  single_consumer self'.
Proof.
  intros [Hlen Hlive]. rewrite add_unfold. intros [= <-].
  destruct self as [q tl bs mc res run procs tr inh]. simpl in *.
  destruct run as [|p [|p' run]]; simpl in Hlen; [| |lia];
    unfold single_consumer; simpl.
  - rewrite reap_singleton, is_alive_new. simpl. split; [lia|].
    intros pid Ha. apply is_alive_app_true in Ha as [Ha | ->].
    + apply Hlive in Ha. by apply elem_of_nil in Ha.
    + by apply list_elem_of_singleton.
  - rewrite reap_singleton.
    destruct (ImportBuffer.is_alive procs p) eqn:Hp; simpl.
    + split; [lia|done].
    + split; [lia|]. intros pid Ha. pose proof (Hlive pid Ha) as Hin.
      apply list_elem_of_singleton in Hin. congruence.
Qed.

Lemma consumer_step_keeps self (p : nat) self' :
  consumer_step self p = Ok self' ->
  ImportBuffer.running self' = ImportBuffer.running self /\
  forall pid,
    ImportBuffer.is_alive (ImportBuffer.procs self') pid = true ->
    ImportBuffer.is_alive (ImportBuffer.procs self) pid = true.
Proof.
  unfold consumer_step.
  destruct (ImportBuffer.is_alive (ImportBuffer.procs self) p);
    [|by intros [= <-]].
  destruct (BufferConsumer.run_body _) as [[[c d] ev]|e]; [|done].
  intros [= <-]. simpl. split; [done|]. intros pid Ha.
  destruct d; [|done]. by apply is_alive_insert in Ha as [Ha _].
Qed.

Lemma consumer_exits_keeps (fuel : nat) self (p : nat) self' :
  ImportBuffer.consumer_exits fuel self p = Some (Ok self') ->
  ImportBuffer.running self' = ImportBuffer.running self /\
  forall pid,
    ImportBuffer.is_alive (ImportBuffer.procs self') pid = true ->
    ImportBuffer.is_alive (ImportBuffer.procs self) pid = true.
Proof.
  unfold ImportBuffer.consumer_exits.
  destruct (ImportBuffer.is_alive (ImportBuffer.procs self) p);
    [|by intros [= <-]].
  destruct (BufferConsumer.run _ _) as [[[c lg]|e]|]; try done.
  intros [= <-]. simpl. split; [done|]. intros pid Ha.
  by apply is_alive_insert in Ha as [Ha _].
Qed.

Lemma join_all_keeps (fuel : nat) (pids : list nat) : forall self self',
  ImportBuffer.join_all fuel self pids = Some (Ok self') ->
  ImportBuffer.running self' = ImportBuffer.running self /\
  forall pid,
    ImportBuffer.is_alive (ImportBuffer.procs self') pid = true ->
    ImportBuffer.is_alive (ImportBuffer.procs self) pid = true.
Proof.
  induction pids as [|p pids IH]; intros self self'; simpl.
  - by intros [= <-].
  - unfold ImportBuffer.join.
    destruct (ImportBuffer.consumer_exits fuel self p)
      as [[s1|e]|] eqn:He; try done.
    intros H. apply IH in H as [Hr Hl].
    apply consumer_exits_keeps in He as [Hr1 Hl1]. simpl in *.
    split; [congruence|]. intros pid Ha. by apply Hl1, Hl.
Qed.

Lemma single_consumer_op (fuel : nat) self (o : @op Item) self' :
  single_consumer self ->
  exec_op fuel self o = Some (Ok self') ->
  single_consumer self'.
Proof.
  intros Hs. destruct o as [x|p|p|]; cbn [exec_op].
  - intros [= H]. by eapply single_consumer_add.
  - intros [= H]. apply consumer_step_keeps in H as [Hr Hl].
    by apply (single_consumer_keeps self).
  - intros H. apply consumer_exits_keeps in H as [Hr Hl].
    by apply (single_consumer_keeps self).
  - unfold ImportBuffer.finish.
    destruct (ImportBuffer.join_all _ _ _) as [[s1|e]|] eqn:Hj; try done.
    destruct (ImportBuffer.results_list s1); [|done].
    intros [= <-]. apply join_all_keeps in Hj as [Hr Hl].
    by apply (single_consumer_keeps self).
Qed.

Lemma exec_single_consumer ops : forall (fuel : nat) self self',
  single_consumer self ->
  exec fuel self ops = Some (Ok self') ->
  single_consumer self'.
Proof.
  induction ops as [|o ops IH]; intros fuel self self' Hs; cbn [exec].
  - by intros [= <-].
  - destruct (exec_op fuel self o) as [[s1|e]|] eqn:Ho; try done.
    apply IH. by eapply single_consumer_op.
Qed.

(** At most one consumer is ever listed as running, and none lives
    unlisted: [add] starts one only when the list is empty. *)
Lemma reachable_single_consumer self :
  reachable self -> single_consumer self.
Proof.
  induction 1 as [kw|earlier kw _ IH|s tl bs mc res inh _ IH
                 |fuel s o s' _ IH Ho].
  - split; simpl; [lia|done].
  - exact IH.
  - exact IH.
  - by eapply single_consumer_op.
Qed.

(** X6: a buffer is constructed when no consumer process is alive: the
    first buffer of the class, or a later one made once the consumers of
    the earlier ones have exited.  In every run of it (any interleaving of
    [add]s, consumer passes, consumer exits and [finish]es), given fuel
    above the length of the backlog it finds and the number of operations,
    no operation raises, and at the end the results followed by the queue
    are exactly the backlog the earlier buffers left in the queue followed
    by the items added, each once and in order. *)
Theorem run_conserves_items (earlier : @ImportBuffer.t Item) kw ops
  (extra : nat) :
  (forall pid,
     ImportBuffer.is_alive (ImportBuffer.procs earlier) pid = false) ->
  exists self' (r : list Item),
    exec (S (length (ImportBuffer.queue earlier) + length ops) + extra)
      (ImportBuffer.__init__ (next_instance earlier) kw) ops
    = Some (Ok self') /\
    ImportBuffer.results_list self' = Some r /\
    r ++ ImportBuffer.queue self' = ImportBuffer.queue earlier ++ added ops.
Proof.
  intros Hp.
  destruct (exec_conserved ops (ImportBuffer.queue earlier)
              (ImportBuffer.__init__ (next_instance earlier) kw)
              (S (length (ImportBuffer.queue earlier) + length ops) + extra))
    as (s & Hexec & (r & Hres & Hitems) & _).
  - by apply conserved_init.
  - pose proof (added_length ops). lia.
  - by exists s, r.
Qed.

(** X7: in every run of a fresh buffer at most one consumer is alive at the
    end, and the running list holds at most one consumer, whatever the
    backlog and whatever [trigger_limit] and [max_consumers] are. *)
Theorem run_has_one_consumer kw ops (extra : nat) :
  exists self',
    exec (S (length ops) + extra)
      (ImportBuffer.__init__ ImportBuffer.class_attrs kw) ops
    = Some (Ok self') /\
    (length (ImportBuffer.running self') <= 1)%nat /\
    forall p1 p2 : nat,
      ImportBuffer.is_alive (ImportBuffer.procs self') p1 = true ->
      ImportBuffer.is_alive (ImportBuffer.procs self') p2 = true ->
      p1 = p2.
Proof.
  destruct (exec_conserved ops []
              (ImportBuffer.__init__ ImportBuffer.class_attrs kw)
              (S (length ops) + extra))
    as (s & Hexec & _).
  - by apply (conserved_init ImportBuffer.class_attrs kw).
  - pose proof (added_length ops). simpl. lia.
  - exists s. split; [done|].
    destruct (exec_single_consumer ops _ _ s
                (reachable_single_consumer _ (reach_first kw)) Hexec)
      as [Hlen Hlive].
    split; [done|].
    intros p1 p2 H1 H2. apply Hlive in H1, H2.
    destruct (ImportBuffer.running s) as [|p [|p' run]];
      simpl in Hlen; [by apply elem_of_nil in H1 | | lia].
    apply list_elem_of_singleton in H1, H2. congruence.
Qed.


End RunFacts.

Lemma run_conserves_items_witness :
  exists self' (r : list nat),
    BufferRuns.exec 4
      (ImportBuffer.__init__
         (BufferRuns.next_instance
            (ImportBuffer.Build [2%nat] 5000 1000 5 (Some [1%nat]) []
               [false] [ImportBuffer.Started 0]))
         (ImportBuffer.Kwargs None None None None None))
      [BufferRuns.OpAdd 3%nat; BufferRuns.OpFinish]
    = Some (Ok self') /\
    ImportBuffer.results_list self' = Some r /\
    r ++ ImportBuffer.queue self' = [2; 3]%nat.
Proof.
  apply (run_conserves_items
           (ImportBuffer.Build [2%nat] 5000 1000 5 (Some [1%nat]) []
              [false] [ImportBuffer.Started 0])
           (ImportBuffer.Kwargs None None None None None)
           [BufferRuns.OpAdd 3%nat; BufferRuns.OpFinish] 0).
  intros [|[|pid]]; reflexivity.
Defined.


(** ** ImportBuffer: the limits, and the next instance *)

Section LimitFacts.
Import BufferRuns.
Context {Item : Type}.
Implicit Types (self : @ImportBuffer.t Item) (tl bs mc : Z).

Lemma add_with_limits tl bs mc self (item : Item) :
  Some (ImportBuffer.add (with_limits tl bs mc self) item)
  = relimit tl bs mc (Some (ImportBuffer.add self item)).
Proof.
  rewrite !add_unfold. destruct self as [q tl0 bs0 mc0 res run procs tr inh].
  simpl. by destruct (bool_decide _).
Qed.

Lemma consumer_step_with_limits tl bs mc self (pid : nat) :
  Some (consumer_step (with_limits tl bs mc self) pid)
  = relimit tl bs mc (Some (consumer_step self pid)).
Proof.
  unfold consumer_step. destruct self as [q tl0 bs0 mc0 res run procs tr inh].
  simpl. destruct (ImportBuffer.is_alive procs pid); [|done].
  by destruct (BufferConsumer.run_body _) as [[[c done'] ev]|e].
Qed.

Lemma consumer_exits_with_limits tl bs mc (fuel : nat) self (pid : nat) :
  ImportBuffer.consumer_exits fuel (with_limits tl bs mc self) pid
  = relimit tl bs mc (ImportBuffer.consumer_exits fuel self pid).
Proof.
  unfold ImportBuffer.consumer_exits.
  destruct self as [q tl0 bs0 mc0 res run procs tr inh].
  simpl. destruct (ImportBuffer.is_alive procs pid); [|done].
  by destruct (BufferConsumer.run fuel _) as [[[c lg]|e]|].
Qed.

Lemma join_all_with_limits tl bs mc (fuel : nat) (pids : list nat) :
  forall self,
    ImportBuffer.join_all fuel (with_limits tl bs mc self) pids
    = relimit tl bs mc (ImportBuffer.join_all fuel self pids).
Proof.
  induction pids as [|p pids IH]; intros self; [done|].
  cbn [ImportBuffer.join_all]. unfold ImportBuffer.join.
  rewrite consumer_exits_with_limits.
  destruct (ImportBuffer.consumer_exits fuel self p) as [[s1|e]|];
    [|done..].
  cbn [relimit]. apply (IH (ImportBuffer.log_event _ s1)).
Qed.

Lemma finish_with_limits tl bs mc (fuel : nat) self :
  ImportBuffer.finish fuel (with_limits tl bs mc self)
  = match ImportBuffer.finish fuel self with
    | Some (Ok (self', r)) => Some (Ok (with_limits tl bs mc self', r))
    | r => r
    end.
Proof.
  unfold ImportBuffer.finish.
  change (ImportBuffer.running (with_limits tl bs mc self))
    with (ImportBuffer.running self).
  rewrite join_all_with_limits.
  destruct (ImportBuffer.join_all fuel self _) as [[s1|e]|]; [|done..].
  cbn [relimit].
  change (ImportBuffer.results_list (with_limits tl bs mc s1))
    with (ImportBuffer.results_list s1).
  by destruct (ImportBuffer.results_list s1).
Qed.

(** X8: [trigger_limit], [bite_size] and [max_consumers] are carried along
    and never read: a run of a buffer with other limits goes through the
    same queue, results, running list, processes and events, and ends the
    same way (returning, raising or still running). *)
Theorem limits_are_never_read tl bs mc (ops : list (@op Item)) :
  forall (fuel : nat) self,
    exec fuel (with_limits tl bs mc self) ops
    = relimit tl bs mc (exec fuel self ops).
Proof.
  induction ops as [|o ops IH]; intros fuel self; [done|].
  cbn [exec].
  assert (Hop : exec_op fuel (with_limits tl bs mc self) o
                = relimit tl bs mc (exec_op fuel self o)).
  { destruct o as [x|p|p|]; cbn [exec_op].
    - apply add_with_limits.
    - apply consumer_step_with_limits.
    - apply consumer_exits_with_limits.
    - rewrite finish_with_limits.
      by destruct (ImportBuffer.finish fuel self) as [[[s1 r]|e]|]. }
  rewrite Hop.
  destruct (exec_op fuel self o) as [[s1|e]|]; [|done..].
  cbn [relimit]. apply IH.
Qed.

(** X9: the queue is an attribute of the class, so the next buffer finds
    what an earlier one left in it.  When the earlier buffer left a backlog
    and no consumer listed, the next buffer's first [add] starts a consumer
    and its [finish] returns the earlier backlog followed by the item. *)
Theorem next_instance_inherits_backlog (earlier : @ImportBuffer.t Item)
  kw (item : Item) (extra : nat) :
  ImportBuffer.running earlier = [] ->
  exists b b',
    ImportBuffer.add
      (ImportBuffer.__init__ (next_instance earlier) kw) item = Ok b /\
    ImportBuffer.finish
      (S (S (length (ImportBuffer.queue earlier))) + extra) b
    = Some (Ok (b', ImportBuffer.queue earlier ++ [item])).
Proof.
  intros Hr. rewrite add_starts_one by done.
  destruct earlier as [q tl bs mc res run procs tr inh]. simpl in Hr. subst run.
  eexists _, _. split; [reflexivity|].
  unfold ImportBuffer.start_consumer, ImportBuffer.put_item,
    ImportBuffer.__init__, next_instance, BufferQueue.put.
  cbn -[ImportBuffer.finish length Nat.add].
  replace (S (S (length q)) + extra)%nat
    with (S (length (q ++ [item])) + extra)%nat
    by (rewrite length_app; simpl; lia).
  rewrite finish_one_alive by (apply is_alive_new || done). reflexivity.
Qed.

End LimitFacts.

Lemma next_instance_inherits_backlog_witness :
  exists b b',
    ImportBuffer.add
      (ImportBuffer.__init__
         (BufferRuns.next_instance
            (ImportBuffer.Build [2%nat] 5000 1000 5 (Some [1%nat]) []
               [false] [ImportBuffer.Started 0]))
         (ImportBuffer.Kwargs None None None None None)) 3%nat = Ok b /\
    ImportBuffer.finish 3 b = Some (Ok (b', [2; 3]%nat)).
Proof.
  exact (next_instance_inherits_backlog
           (ImportBuffer.Build [2%nat] 5000 1000 5 (Some [1%nat]) []
              [false] [ImportBuffer.Started 0])
           (ImportBuffer.Kwargs None None None None None) 3%nat 0 eq_refl).
Defined.


(** ** Map.setReport and the report runner *)

Section MapFacts.
Context {Cache : Type}.
Variable load : Cache -> Map.t -> Cache * Map.t.

(** X10: [setReport] raises [QualysException] exactly when it is given
    neither a report identifier nor a report.  Otherwise it changes only
    [report_id]: to the [id] of the report when a report is given, whatever
    [report_id] was passed, and to the identifier passed when none is.  So
    set from an identifier alone the map has a report; set from a report
    whose [id] is [None] it has none. *)
Theorem setReport_prefers_report (self : Map.t) (kw : MapReport.kwargs) :
  match MapReport.setReport self kw with
  | Exc.Throw e =>
      e = Exc.QualysException /\
      MapReport.kw_report_id kw = None /\ MapReport.kw_report kw = None
  | Exc.Return m =>
      Map.ref m = Map.ref self /\
      match MapReport.kw_report kw with
      | Some report =>
          Map.report_id m = Report.id report /\
          Map.hasReport m = bool_decide (is_Some (Report.id report))
      | None =>
          Map.report_id m = MapReport.kw_report_id kw /\
          Map.hasReport m = true
      end
  end.
Proof.
  destruct kw as [[rid|] [report|]]; simpl; repeat split.
  all: unfold Map.hasReport; simpl; by destruct (Report.id report).
Qed.

(** X11: maps that were each given a report identifier by [setReport] are
    worked off by the report runner without a single look into the cache:
    [run] returns after one pass per map and one for the timeout, the queue
    empty and the cache as it was. *)
Theorem run_passes_maps_with_report (maps maps' : list Map.t)
  (cache : Cache) (extra : nat) :
  Forall2 (fun m m' => exists rid : Z,
             MapReport.setReport m (MapReport.Kwargs (Some rid) None)
             = Exc.Return m') maps maps' ->
  MapReportRunner.run load (S (length maps') + extra)
    (MapReportRunner.Build maps' cache)
  = Some (Ok (MapReportRunner.Build [] cache)).
Proof.
  intros H. apply run_all_reported.
  induction H as [|m m' ms ms' (rid & Hset) _ IH]; constructor; [|done].
  simpl in Hset. by injection Hset as <-.
Qed.

(** The cache knows a report for every map it is asked about. *)
Hypothesis load_finds_report : forall cache m,
  Map.hasReport (load cache m).2 = true.

(** X12: when the cache has a report for every map, [run] works off any
    queue and returns, given two units of fuel beyond one per map; each map
    that came without a report identifier is loaded from the cache once, in
    queue order, the others not at all. *)
Theorem run_terminates_with_cache (maps : list Map.t) :
  forall (cache : Cache) (extra : nat),
    MapReportRunner.run load (length maps + 2 + extra)
      (MapReportRunner.Build maps cache)
    = Some (Ok (MapReportRunner.Build [] (looked_up load cache maps))).
Proof.
  induction maps as [|m maps IH]; intros cache extra; [done|].
  change (length (m :: maps) + 2 + extra)%nat
    with (S (length maps + 2 + extra)).
  cbn [MapReportRunner.run BufferQueue.get MapReportRunner.queue
       MapReportRunner.redis_cache looked_up foldl].
  replace (length maps + 2 + extra)%nat
    with (S (S (length maps + extra))) at 1 by lia.
  destruct (Map.hasReport m) eqn:Hm.
  - rewrite report_loop_has_report by done. apply IH.
  - cbn [MapReportRunner.report_loop].
    unfold Map.hasReport in Hm.
    destruct (Map.report_id m) eqn:Hid; [done|].
    pose proof (load_finds_report cache m) as Hl.
    destruct (load cache m) as [cache' m'] eqn:Hload. simpl in Hl.
    unfold Map.hasReport in Hl.
    destruct (Map.report_id m'); [|done]. apply IH.
Qed.

End MapFacts.

Lemma run_passes_maps_with_report_witness :
  MapReportRunner.run (fun (cache : unit) m => (cache, m)) 2
    (MapReportRunner.Build [Map.Build (Some 1) (Some 5)] tt)
  = Some (Ok (MapReportRunner.Build [] tt)).
Proof.
  apply (run_passes_maps_with_report (fun (cache : unit) m => (cache, m))
           [Map.Build (Some 1) None] [Map.Build (Some 1) (Some 5)] tt 0).
  constructor; [|constructor]. exists 5. reflexivity.
Defined.

Lemma run_terminates_with_cache_witness :
  MapReportRunner.run
    (fun (cache : nat) m => (S cache, Map.Build (Map.ref m) (Some 9))) 4
    (MapReportRunner.Build
       [Map.Build (Some 1) None; Map.Build (Some 2) (Some 5)] 0%nat)
  = Some (Ok (MapReportRunner.Build [] 1%nat)).
Proof.
  exact (run_terminates_with_cache
           (fun (cache : nat) m => (S cache, Map.Build (Map.ref m) (Some 9)))
           (fun cache m => eq_refl)
           [Map.Build (Some 1) None; Map.Build (Some 2) (Some 5)] 0%nat 0%nat).
Defined.

(** ** Text *)

Section TextFacts.
Implicit Types (s p sub pre post new : str) (c sep : Ascii.ascii).



Lemma replace_app c new s1 s2 :
  replace c new (s1 ++ s2) = replace c new s1 ++ replace c new s2.
Proof. apply flat_map_app. Qed.

Lemma replace_absent c new s : c ∉ s -> replace c new s = s.
Proof.
  induction s as [|x s IH]; intros Hc; [done|].
  apply not_elem_of_cons in Hc as [Hne Hc].
  unfold replace in *. simpl. rewrite decide_False by done.
  simpl. by rewrite IH.
Qed.

Lemma replace_one c new : replace c new [c] = new.
Proof.
  unfold replace. simpl. rewrite decide_True by done. apply app_nil_r.
Qed.

Lemma elem_of_replace c new s x :
  x ∈ replace c new s -> x ∈ new \/ (x ∈ s /\ x <> c).
Proof.
  induction s as [|y s IH]; unfold replace in *; simpl.
  - intros H. by apply elem_of_nil in H.
  - rewrite elem_of_app. intros [H|H].
    + destruct (decide (y = c)) as [->|Hne]; [by left|].
      apply list_elem_of_singleton in H as ->. right. split; [left|done].
    + destruct (IH H) as [?|[? ?]]; [by left|]. right. split; [by right|done].
Qed.

Lemma split_absent sep s : sep ∉ s -> split sep s = [s].
Proof.
  induction s as [|x s IH]; intros Hs; [done|].
  apply not_elem_of_cons in Hs as [Hne Hs].
  simpl. rewrite decide_False by done. by rewrite IH.
Qed.

Lemma split_app sep s1 s2 :
  sep ∉ s1 -> split sep (s1 ++ sep :: s2) = s1 :: split sep s2.
Proof.
  induction s1 as [|x s1 IH]; intros Hs; simpl.
  - by rewrite decide_True.
  - apply not_elem_of_cons in Hs as [Hne Hs].
    rewrite decide_False by done. by rewrite IH.
Qed.

Lemma split_fields sep s :
  Forall (fun f => (sep ∉ f) /\ forall x, x ∈ f -> x ∈ s) (split sep s).
Proof.
  induction s as [|x s IH]; simpl.
  - constructor; [|constructor]. split; [apply not_elem_of_nil | done].
  - destruct (decide (x = sep)) as [->|Hne].
    + constructor.
      * split; [apply not_elem_of_nil|]. intros y Hy.
        by apply elem_of_nil in Hy.
      * eapply Forall_impl; [exact IH|]. intros f [Hf Hsub].
        split; [done|]. intros y Hy. right. by apply Hsub.
    + destruct (split sep s) as [|w ws].
      { constructor; [|constructor]. split.
        - intros Hin. by apply list_elem_of_singleton in Hin.
        - intros y Hy. apply list_elem_of_singleton in Hy as ->. left. }
      apply Forall_cons in IH as [[Hw Hsub] IH].
      constructor.
      * split.
        -- apply not_elem_of_cons. split; [done|done].
        -- intros y Hy. apply elem_of_cons in Hy as [->|Hy];
             [left | right; by apply Hsub].
      * eapply Forall_impl; [exact IH|]. intros f [Hf Hsub'].
        split; [done|]. intros y Hy. right. by apply Hsub'.
Qed.

Lemma split_length sep s :
  length (split sep s) = S (length (filter (fun x => x = sep) s)).
Proof.
  induction s as [|x s IH]; [done|]. cbn [split]. rewrite filter_cons.
  destruct (decide (x = sep)); cbn [length].
  - by rewrite IH.
  - destruct (split sep s); cbn [length] in *; lia.
Qed.

Lemma free_elem cs s c : free cs s -> c ∈ cs -> c ∉ s.
Proof.
  unfold free. rewrite Forall_forall. intros H Hc Hin.
  by apply (H c Hin).
Qed.

End TextFacts.

(** ** Timestamps *)

Section TimestampFacts.
Context {DateTime : Type}.
Variable int : str -> Exc.outcome Z.
Variable datetime : Z -> Z -> Z -> Z -> Z -> Z -> Exc.outcome DateTime.

Local Abbreviation T := (chr "T").
Local Abbreviation Zc := (chr "Z").
Local Abbreviation sp := (chr " ").
Local Abbreviation dash := (chr "-").
Local Abbreviation colon := (chr ":").

Lemma count_spaces_of_fields (text : str) :
  length (filter (fun c => c = sp)
            (replace Zc [] (replace T [sp] text)))
  = length (filter (fun c => c = T \/ c = sp) text).
Proof.
  induction text as [|c text IH]; [done|].
  unfold replace in *. cbn [flat_map].
  rewrite flat_map_app, filter_app, length_app, IH.
  rewrite (filter_cons _ c text).
  destruct (decide (c = T)) as [->|HT].
  { rewrite decide_True by (by left). reflexivity. }
  cbn [flat_map]. rewrite app_nil_r.
  destruct (decide (c = Zc)) as [->|HZ].
  { rewrite decide_False by (intros [?|?]; done). reflexivity. }
  rewrite filter_cons, filter_nil.
  destruct (decide (c = sp)) as [->|Hsp].
  - rewrite decide_True by (by right). reflexivity.
  - rewrite decide_False by (intros [?|?]; done). reflexivity.
Qed.

(** X13: the fields a timestamp is cut into never hold a space, a [T] or a
    [Z]: every [T] of the text, not only the one between date and time,
    separates two fields, and every [Z] is dropped.  There is one field
    more than the text has [T]s and spaces. *)
Theorem fields_hold_no_separator (text : str) :
  Forall (free [sp; T; Zc]) (Timestamp.fields text) /\
  length (Timestamp.fields text)
  = S (length (filter (fun c => c = T \/ c = sp) text)).
Proof.
  unfold Timestamp.fields. split.
  - eapply Forall_impl; [apply split_fields|].
    intros f [Hsp Hsub]. unfold free. apply Forall_forall. intros c Hc.
    intros Hin. apply elem_of_cons in Hin as [->|Hin]; [done|].
    apply Hsub in Hc.
    apply elem_of_replace in Hc as [Hc | [Hc HZ]];
      [by apply elem_of_nil in Hc|].
    apply elem_of_replace in Hc as [Hc | [Hc HT]].
    + apply list_elem_of_singleton in Hc as ->.
      apply elem_of_cons in Hin as [Hin|Hin]; [done|].
      apply list_elem_of_singleton in Hin. done.
    + apply elem_of_cons in Hin as [->|Hin]; [done|].
      apply list_elem_of_singleton in Hin. done.
  - rewrite split_length. f_equal. apply count_spaces_of_fields.
Qed.

(** X14: a timestamp text without a [T] and without a space has no time
    part: the lines of [Host.__init__] and [Scan.__init__] that read the
    timestamp raise [IndexError] on it, whatever the text holds otherwise
    and before [int] is called on any part of it. *)
Theorem parse_needs_time_part (text : str) :
  sp ∉ text -> T ∉ text ->
  Timestamp.parse int datetime text = Exc.Throw Exc.IndexError.
Proof.
  intros Hsp HT. unfold Timestamp.parse, Timestamp.fields.
  rewrite (replace_absent T) by done.
  rewrite split_absent; [reflexivity|].
  intros Hin. apply elem_of_replace in Hin as [Hin|[Hin _]]; [|done].
  by apply elem_of_nil in Hin.
Qed.

(** X15: on a text [Y-M-DTh:m:sZ], the six parts free of [T], [Z] and
    space, the date parts free of [-] and the time parts of [:], the lines
    that read the timestamp call [int] on the six parts, in this order, and
    hand the six numbers to [datetime.datetime]; the first [int] that raises
    ends the call. *)
Theorem parse_iso_timestamp (Y M D h m s : str) :
  Forall (free [T; Zc; sp; dash]) [Y; M; D] ->
  Forall (free [T; Zc; sp; colon]) [h; m; s] ->
  Timestamp.parse int datetime
    (Y ++ dash :: M ++ dash :: D ++ T :: h ++ colon :: m ++ colon :: s
     ++ [Zc])
  = (y ← int Y; mo ← int M; dd ← int D;
     hh ← int h; mi ← int m; ss ← int s;
     datetime y mo dd hh mi ss).
Proof.
  intros Hd Ht.
  apply Forall_cons in Hd as [HY Hd]. apply Forall_cons in Hd as [HM Hd].
  apply Forall_cons in Hd as [HD _].
  apply Forall_cons in Ht as [Hh Ht]. apply Forall_cons in Ht as [Hm Ht].
  apply Forall_cons in Ht as [Hs _].
  assert (Hin : forall (c : Ascii.ascii) cs (x : str),
            free cs x -> c ∈ cs -> c ∉ x)
    by (intros; by eapply free_elem).
  assert (HdateT : T ∉ Y ++ dash :: M ++ dash :: D).
  { rewrite !elem_of_app, !elem_of_cons, !elem_of_app, !elem_of_cons.
    intros [?|[?|[?|[?|?]]]]; try done.
    - eapply (Hin T _ Y); [done | by left | done].
    - eapply (Hin T _ M); [done | by left | done].
    - eapply (Hin T _ D); [done | by left | done]. }
  assert (HtimeT : T ∉ h ++ colon :: m ++ colon :: s ++ [Zc]).
  { rewrite !elem_of_app, !elem_of_cons, !elem_of_app, !elem_of_cons,
      !elem_of_app, list_elem_of_singleton.
    intros [?|[?|[?|[?|[?|?]]]]]; try done.
    - eapply (Hin T _ h); [done | by left | done].
    - eapply (Hin T _ m); [done | by left | done].
    - eapply (Hin T _ s); [done | by left | done]. }
  assert (HdateZ : Zc ∉ Y ++ dash :: M ++ dash :: D).
  { rewrite !elem_of_app, !elem_of_cons, !elem_of_app, !elem_of_cons.
    intros [?|[?|[?|[?|?]]]]; try done.
    - eapply (Hin Zc _ Y); [done | right; by left | done].
    - eapply (Hin Zc _ M); [done | right; by left | done].
    - eapply (Hin Zc _ D); [done | right; by left | done]. }
  assert (HtimeZ : Zc ∉ h ++ colon :: m ++ colon :: s).
  { rewrite !elem_of_app, !elem_of_cons, !elem_of_app, !elem_of_cons.
    intros [?|[?|[?|[?|?]]]]; try done.
    - eapply (Hin Zc _ h); [done | right; by left | done].
    - eapply (Hin Zc _ m); [done | right; by left | done].
    - eapply (Hin Zc _ s); [done | right; by left | done]. }
  assert (Hdatesp : sp ∉ Y ++ dash :: M ++ dash :: D).
  { rewrite !elem_of_app, !elem_of_cons, !elem_of_app, !elem_of_cons.
    intros [?|[?|[?|[?|?]]]]; try done.
    - eapply (Hin sp _ Y); [done | right; right; by left | done].
    - eapply (Hin sp _ M); [done | right; right; by left | done].
    - eapply (Hin sp _ D); [done | right; right; by left | done]. }
  assert (Htimesp : sp ∉ h ++ colon :: m ++ colon :: s).
  { rewrite !elem_of_app, !elem_of_cons, !elem_of_app, !elem_of_cons.
    intros [?|[?|[?|[?|?]]]]; try done.
    - eapply (Hin sp _ h); [done | right; right; by left | done].
    - eapply (Hin sp _ m); [done | right; right; by left | done].
    - eapply (Hin sp _ s); [done | right; right; by left | done]. }
  assert (Hfields :
    Timestamp.fields
      (Y ++ dash :: M ++ dash :: D ++ T :: h ++ colon :: m ++ colon :: s
       ++ [Zc])
    = [Y ++ dash :: M ++ dash :: D; h ++ colon :: m ++ colon :: s]).
  { unfold Timestamp.fields.
    set (A := Y ++ dash :: M ++ dash :: D) in *.
    set (B := h ++ colon :: m ++ colon :: s) in *.
    replace (Y ++ dash :: M ++ dash :: D ++ T :: h ++ colon :: m
             ++ colon :: s ++ [Zc])
      with (A ++ [T] ++ B ++ [Zc])
      by (subst A B;
          repeat first [rewrite <- app_assoc | progress cbn [app]]; done).
    assert (HBT : T ∉ B ++ [Zc]).
    { subst B. by repeat first [rewrite <- app_assoc | progress cbn [app]]. }
    rewrite (replace_app T _ A), (replace_app T _ [T]), replace_one.
    rewrite (replace_absent T _ A), (replace_absent T _ (B ++ [Zc])) by done.
    rewrite (replace_app Zc _ A), (replace_app Zc _ [sp]),
      (replace_app Zc _ B), replace_one, app_nil_r.
    rewrite (replace_absent Zc _ A), (replace_absent Zc _ B) by done.
    rewrite (replace_absent Zc _ [sp]) by
      (intros Hc; by apply list_elem_of_singleton in Hc).
    cbn [app]. rewrite split_app by done. by rewrite split_absent. }
  unfold Timestamp.parse. rewrite Hfields. cbn [index lookup list_lookup].
  unfold mbind at 1 2. cbn [outcome_bind Exc.bind].
  rewrite !split_app, !split_absent; [reflexivity | ..].
  all: match goal with
       | |- ?c ∉ ?x =>
           eapply (Hin c _ x); [eassumption | do 3 right; by left]
       end.
Qed.

End TimestampFacts.

Ltac solve_notin :=
  let H := fresh in
  intros H;
  repeat (apply elem_of_cons in H as [H|H]; [discriminate H|]);
  by apply elem_of_nil in H.

Ltac solve_free :=
  unfold free; repeat (apply Forall_cons_2; [solve_notin|]);
  apply Forall_nil_2.

Lemma parse_needs_time_part_witness :
  Timestamp.parse (fun _ => Exc.Return 0)
    (fun _ _ _ _ _ _ => Exc.Return tt) (lit "2014-01-02")
  = Exc.Throw Exc.IndexError.
Proof.
  apply parse_needs_time_part; solve_notin.
Defined.

Lemma parse_iso_timestamp_witness :
  Timestamp.parse (fun x => Exc.Return (Z.of_nat (length x)))
    (fun y mo dd hh mi ss => Exc.Return [y; mo; dd; hh; mi; ss])
    (lit "2014-1-02T003:04:5Z")
  = Exc.Return [4; 1; 2; 3; 2; 1].
Proof.
  apply (parse_iso_timestamp (fun x => Exc.Return (Z.of_nat (length x)))
           (fun y mo dd hh mi ss => Exc.Return [y; mo; dd; hh; mi; ss])
           (lit "2014") (lit "1") (lit "02")
           (lit "003") (lit "04") (lit "5")).
  - repeat (apply Forall_cons_2; [solve_free|]). apply Forall_nil_2.
  - repeat (apply Forall_cons_2; [solve_free|]). apply Forall_nil_2.
Defined.

(** ** Scan: cancel, pause, resume *)

Section ScanFacts.
Context {Resp State : Type}.
Variable respond : list Scan.request -> Resp.
Variable state_of : Resp -> Exc.outcome State.
Implicit Types (log : list Scan.request) (self : Scan.t).






End ScanFacts.



(** ** Report *)

Section ReportFacts.
Context {V Resp : Type}.
Variable is_finished : V -> bool.
Variable respond : list (@Report.request V) -> Resp.

(** X18: [Report.__init__] returns only when it is given no data: no
    positional argument, none of the eight attributes as a keyword, and no
    [elem] ([json] is ignored).  The report it then builds has every
    attribute [None], the two dates being the one field of the text
    [None]; so [download] on it sends no request and returns [None]. *)
Theorem report_init_takes_no_data (args : list V)
  (kw : @Report.kwargs V) (r : @Report.t V) :
  Report.__init__ args kw = Exc.Return r ->
  args = [] /\
  Forall (fun v => v = None) (Report.ordered kw) /\
  Report.kw_elem kw = None /\
  r = Report.Build [lit "None"] None [lit "None"] None None None None None /\
  forall log, Report.download is_finished respond log r = (log, None).
Proof.
  unfold Report.__init__. intros H.
  destruct (bool_decide (args = [])) eqn:Hargs; [|done].
  apply bool_decide_eq_true in Hargs.
  destruct (forallb _ (Report.ordered kw)) eqn:Hkeys; [|done].
  destruct (Report.kw_elem kw) eqn:Helem; [done|].
  cbn in H. injection H as <-.
  split; [done|]. split.
  - apply Forall_forall. intros v Hv.
    rewrite forallb_forall in Hkeys.
    apply list_elem_of_In in Hv. apply Hkeys in Hv.
    by apply bool_decide_eq_true in Hv.
  - done.
Qed.

End ReportFacts.

Lemma report_init_takes_no_data_witness :
  Report.download (fun v : Z => bool_decide (v = 1))
    (fun _ : list (@Report.request Z) => tt) []
    (Report.Build [lit "None"] None [lit "None"] None None None None None)
  = ([], None).
Proof.
  destruct (report_init_takes_no_data (fun v : Z => bool_decide (v = 1))
              (fun _ : list (@Report.request Z) => tt) []
              (Report.Kwargs None None None None None None None None None
                 (Some 7))
              (Report.Build [lit "None"] None [lit "None"] None None None
                 None None) eq_refl) as (_ & _ & _ & _ & H).
  exact (H []).
Defined.

(** ** OptionProfile *)

(** X19: no [OptionProfile] is ever marked as the default: [__init__]
    compares the attribute [option_profile_default], a string when the
    element has it and the number 1 when it has not, with the number 0.
    The title is the text of the element taken: the first positional
    argument when there is one, else the [elem] keyword when it is true. *)
Theorem option_profile_is_never_default
  (args : list (option OptionProfile.element))
  (elem : option OptionProfile.element) :
  OptionProfile.is_default (OptionProfile.__init__ args elem) = false /\
  OptionProfile.title (OptionProfile.__init__ args elem)
  = match args with
    | a :: _ => a ≫= OptionProfile.text
    | [] =>
        match elem with
        | Some e =>
            if OptionProfile.truth e then OptionProfile.text e else None
        | None => None
        end
    end.
Proof.
  unfold OptionProfile.__init__.
  assert (Hdef : forall e,
            OptionProfile.eq_int
              (OptionProfile.get e (lit "option_profile_default") 1) 0
            = false).
  { intros e. unfold OptionProfile.get.
    by destruct (OptionProfile.attrib e _). }
  destruct args as [|[e|] args]; simpl.
  - destruct elem as [e|]; [|done].
    destruct (OptionProfile.truth e); simpl; [|done]. by rewrite Hdef.
  - by rewrite Hdef.
  - done.
Qed.
